(** * Response-stream aggregation of the Vertex AI generative client

    A shallow embedding of [vertexai/genai/content.go]: the parts of a
    content, the merge of streamed response chunks ([joinResponses] and
    the functions below it), the decoding step [protoToResponse] and the
    iterator [GenerateContentResponseIterator.Next] with the single-shot
    driver [generateContent].

    Conventions of the embedding.
    - A Go pointer [*T] that the code tests against [nil] is an [option T].
    - A Go slice is a [list]; [append] is [++].
    - A run-time panic (nil dereference, the [panic] of [partFromProto])
      is the outcome [Panic] of the [exec] monad.
    - The merge mutates its first argument.  It is embedded twice: on
      values ([joinResponses] and the functions below it), where it returns
      the new value of that argument, and on a heap of [Content] and
      [CitationMetadata] objects ([joinResponses_heap] and the functions
      below it), where candidates hold pointers and a destination candidate
      without an object takes over the pointer of the source.  The two agree
      as long as no two candidates of the destination share an object, which
      is the case for the aggregate of an iterator whose first chunk has
      pairwise distinct candidate indices; candidates of the first chunk
      with the same index can come to share an object, which later merges
      then extend once for each of them (both are proved in the section on
      the merge on shared objects).  The iterator is embedded over the merge
      on values. *)

From Stdlib Require Import Strings.Byte.
From stdpp Require Import gmap strings list.

Set Implicit Arguments.

(** ** Parts *)

(** [Part] is the interface implemented by [Text], [Blob] and [FileData]. *)
Inductive Part : Type :=
  | Text (t : string)
  | Blob (MIMEType : string) (Data : list byte)
  | FileData (MIMEType : string) (FileURI : string).

(** [strings.Join(elems, sep)]. *)
Definition strings_Join (elems : list string) (sep : string) : string :=
  String.concat sep elems.

(** The inner loop of [mergeTexts]: starting with [texts], append the text
    of every leading [Text] part of [rest] (the parts from index [i+1] on)
    and stop at the first part that is not a [Text].  The result is the
    final [texts] and the parts from index [j] on. *)
Fixpoint mergeTexts_run (rest : list Part) (texts : list string)
  : list string * list Part :=
  match rest with
  | Text t :: rest' => mergeTexts_run rest' (texts ++ [t])
  | _ => (texts, rest)
  end.

(** The outer loop of [mergeTexts]: [rest] is [in[i:]], [out] the output
    built so far.  Each iteration advances [i], so [len(in) - i] iterations
    are enough; [fuel] bounds them. *)
Fixpoint mergeTexts_loop (fuel : nat) (rest : list Part) (out : list Part)
  : list Part :=
  match fuel with
  | O => out
  | S fuel' =>
      match rest with
      | [] => out
      | Text t :: rest' =>
          let '(texts, rest'') := mergeTexts_run rest' [t] in
          mergeTexts_loop fuel' rest'' (out ++ [Text (strings_Join texts "")])
      | p :: rest' => mergeTexts_loop fuel' rest' (out ++ [p])
      end
  end.

Definition mergeTexts (in_ : list Part) : list Part :=
  mergeTexts_loop (length in_) in_ [].

Definition joinParts (dest src : list Part) : list Part :=
  mergeTexts (dest ++ src).

(** *** Vocabulary for the properties of [mergeTexts] *)

(** Collapsing every maximal run of adjacent [Text] parts, as the
    specification words it: a [Text] part is glued in front of the
    collapsed remainder when that remainder starts with a [Text] part. *)
Fixpoint collapse_text_runs (l : list Part) : list Part :=
  match l with
  | [] => []
  | Text t :: l' =>
      match collapse_text_runs l' with
      | Text u :: out => Text (t +:+ u) :: out
      | out => Text t :: out
      end
  | p :: l' => p :: collapse_text_runs l'
  end.

Definition is_text (p : Part) : bool :=
  match p with Text _ => true | _ => false end.

(** The list starts with a [Text] part. *)
Definition starts_with_text (l : list Part) : bool :=
  match l with
  | p :: _ => is_text p
  | [] => false
  end.

(** Two [Text] parts next to each other somewhere in the list. *)
Fixpoint adjacent_texts (l : list Part) : bool :=
  match l with
  | [] => false
  | p :: l' =>
      match l' with
      | q :: _ => (is_text p && is_text q) || adjacent_texts l'
      | [] => false
      end
  end.

(** All the text of a part list, in order. *)
Fixpoint all_text (l : list Part) : string :=
  match l with
  | [] => ""
  | Text t :: l' => t +:+ all_text l'
  | _ :: l' => all_text l'
  end.

(** The parts that are not [Text], in order. *)
Definition non_text_parts (l : list Part) : list Part :=
  filter (λ p, is_text p = false) l.

(** ** Outcomes of a call *)

(** A call either returns a value or panics. *)
Inductive exec (A : Type) : Type :=
  | Ret (a : A)
  | Panic.
Arguments Ret {A} a.
Arguments Panic {A}.

Definition exec_bind {A B : Type} (m : exec A) (k : A → exec B) : exec B :=
  match m with
  | Ret a => k a
  | Panic => Panic
  end.

Notation "'do' x <- m ; k" := (exec_bind m (λ x, k))
  (at level 10, x binder, m at level 100, k at level 200,
   format "'[v' 'do'  x  <-  m ; '/' k ']'").

(** [mapSlice(from, f)] for an [f] that may panic. *)
Fixpoint mapSlice {A B : Type} (from : list A) (f : A → exec B)
  : exec (list B) :=
  match from with
  | [] => Ret []
  | e :: from' =>
      do e' <- f e;
      do to <- mapSlice from' f;
      Ret (e' :: to)
  end.

(** ** The domain model and the merge of chunks *)

(** Modelled from the spec: the declaration of [FinishReason] is generated
    code that is not part of the file; the specification lists its values
    (unspecified, stop, max-tokens, safety-block, recitation-block,
    other). *)
Inductive FinishReason : Type :=
  | FinishReasonUnspecified
  | FinishReasonStop
  | FinishReasonMaxTokens
  | FinishReasonSafety
  | FinishReasonRecitation
  | FinishReasonOther.

#[global] Instance FinishReason_eq_dec : EqDecision FinishReason.
Proof. solve_decision. Defined.

Section Domain.

(** The declarations of citations, safety ratings and prompt feedback are
    generated code; the merge and the iterator only move their values
    around, so they stay abstract. *)
Variables Citation SafetyRating PromptFeedback : Type.

Record Content : Type := {
  Content_Role : string;
  Content_Parts : list Part;
}.

Record CitationMetadata : Type := {
  CitationMetadata_Citations : list Citation;
}.

Record Candidate : Type := {
  Candidate_Index : Z;
  Candidate_Content : option Content;
  Candidate_FinishReason : FinishReason;
  Candidate_SafetyRatings : list SafetyRating;
  Candidate_CitationMetadata : option CitationMetadata;
}.

Record GenerateContentResponse : Type := {
  Candidates : list Candidate;
  GenerateContentResponse_PromptFeedback : option PromptFeedback;
}.

Record BlockedError : Type := {
  BlockedError_Candidate : option Candidate;
  BlockedError_PromptFeedback : option PromptFeedback;
}.

Definition joinCitationMetadata (dest src : option CitationMetadata)
  : option CitationMetadata :=
  match dest with
  | None => src
  | Some d =>
      match src with
      | None => dest
      | Some s =>
          Some {| CitationMetadata_Citations :=
                    CitationMetadata_Citations d ++ CitationMetadata_Citations s |}
      end
  end.

(** [src.Parts] dereferences [src]: a nil source next to a destination
    that has content panics.  The result is what the returned pointer
    points to: the source object when the destination is nil, the
    destination object after the assignment to [dest.Parts] otherwise. *)
Definition joinContent (dest src : option Content) : exec (option Content) :=
  match dest with
  | None => Ret src
  | Some d =>
      match src with
      | None => Panic
      | Some s =>
          Ret (Some {| Content_Role := Content_Role d;
                       Content_Parts := joinParts (Content_Parts d) (Content_Parts s) |})
      end
  end.

(** The map built by the first loop of [joinCandidateLists]: a later
    source candidate replaces an earlier one with the same index. *)
Definition indexToSrcCandidate (src : list Candidate) : gmap Z Candidate :=
  foldl (λ m s, <[Candidate_Index s := s]> m) ∅ src.

(** The assignments under [if s != nil], for a destination candidate whose
    objects no other candidate of the destination holds. *)
Definition joinCandidate (d s : Candidate) : exec Candidate :=
  do content <- joinContent (Candidate_Content d) (Candidate_Content s);
  Ret {| Candidate_Index := Candidate_Index d;
         Candidate_Content := content;
         Candidate_FinishReason := Candidate_FinishReason s;
         Candidate_SafetyRatings := Candidate_SafetyRatings s;
         Candidate_CitationMetadata :=
           joinCitationMetadata (Candidate_CitationMetadata d)
                                (Candidate_CitationMetadata s) |}.

(** The second loop of [joinCandidateLists], over [dest]. *)
Fixpoint joinCandidateLists_loop (m : gmap Z Candidate) (dest : list Candidate)
  : exec (list Candidate) :=
  match dest with
  | [] => Ret []
  | d :: dest' =>
      do d' <- match m !! Candidate_Index d with
               | Some s => joinCandidate d s
               | None => Ret d
               end;
      do rest <- joinCandidateLists_loop m dest';
      Ret (d' :: rest)
  end.

Definition joinCandidateLists (dest src : list Candidate)
  : exec (list Candidate) :=
  joinCandidateLists_loop (indexToSrcCandidate src) dest.

Definition joinResponses (dest : option GenerateContentResponse)
    (src : GenerateContentResponse) : exec GenerateContentResponse :=
  match dest with
  | None => Ret src
  | Some d =>
      do cands <- joinCandidateLists (Candidates d) (Candidates src);
      Ret {| Candidates := cands;
             GenerateContentResponse_PromptFeedback :=
               GenerateContentResponse_PromptFeedback d |}
  end.

(** The value of [iter.merged] after the chunks of a stream have been
    merged one after the other, starting from [merged]. *)
Fixpoint joinChunks (merged : option GenerateContentResponse)
    (chunks : list GenerateContentResponse)
  : exec (option GenerateContentResponse) :=
  match chunks with
  | [] => Ret merged
  | src :: chunks' =>
      do m <- joinResponses merged src;
      joinChunks (Some m) chunks'
  end.

(** The parts of a content that may be nil. *)
Definition parts_of (c : option Content) : list Part :=
  match c with
  | Some c => Content_Parts c
  | None => []
  end.

(** The citations of a citation metadata that may be nil. *)
Definition citations_of (c : option CitationMetadata) : list Citation :=
  match c with
  | Some c => CitationMetadata_Citations c
  | None => []
  end.

Definition indices (cands : list Candidate) : list Z :=
  map Candidate_Index cands.

Definition has_content (c : Candidate) : Prop :=
  is_Some (Candidate_Content c).

End Domain.

(** ** Decoding a chunk and iterating over a stream *)

Section Iterator.

Variables Citation SafetyRating PromptFeedback : Type.

(** The wire messages [pb.PromptFeedback] and [pb.Candidate], and the
    errors of the transport other than the ones named below. *)
Variables pb_PromptFeedback pb_Candidate OtherError : Type.

Record pb_GenerateContentResponse : Type := {
  pb_Candidates : list pb_Candidate;
  pb_PromptFeedback_ : option pb_PromptFeedback;
}.

(** A Go [error] value that is not nil. *)
Inductive error : Type :=
  | io_EOF
  | iterator_Done
  | error_BlockedError (e : BlockedError Citation SafetyRating PromptFeedback)
  | error_Other (e : OtherError).

(** The collaborators of the iterator whose code is not part of the
    file: the generated decoders [(PromptFeedback{}).fromProto] and
    [(Candidate{}).fromProto] (the latter reaches [partFromProto], which
    panics on an unknown part), the stream client with its [Recv], and
    the chat session with [addToHistory].  That method is handed the
    session and the slice of candidate pointers of the aggregate: it may
    change the session, it may change the candidates, and it may panic
    (it does when the first candidate has no content). *)
Class Collaborators (StreamClient ChatSession : Type) : Type := {
  PromptFeedback_fromProto : option pb_PromptFeedback → option PromptFeedback;
  Candidate_fromProto : pb_Candidate → exec (Candidate Citation SafetyRating);
  Recv : StreamClient →
         (option pb_GenerateContentResponse * option error) * StreamClient;
  addToHistory : ChatSession → list (Candidate Citation SafetyRating) →
                 exec (ChatSession * list (Candidate Citation SafetyRating));
}.

Context {StreamClient ChatSession : Type}.
Context {collab : Collaborators StreamClient ChatSession}.

(** The first candidate, in list order, whose finish reason is
    [FinishReasonSafety]: the [for] loop of [protoToResponse]. *)
Fixpoint firstBlocked (cands : list (Candidate Citation SafetyRating))
  : option (Candidate Citation SafetyRating) :=
  match cands with
  | [] => None
  | c :: cands' =>
      if decide (Candidate_FinishReason c = FinishReasonSafety)
      then Some c
      else firstBlocked cands'
  end.

(** [protoToResponse] returns a response and a nil error ([inl]) or a nil
    response and a [*BlockedError] ([inr]). *)
Definition protoToResponse (resp : pb_GenerateContentResponse)
  : exec (GenerateContentResponse Citation SafetyRating PromptFeedback
          + BlockedError Citation SafetyRating PromptFeedback) :=
  match PromptFeedback_fromProto (pb_PromptFeedback_ resp) with
  | Some pf =>
      Ret (inr {| BlockedError_Candidate := None;
                  BlockedError_PromptFeedback := Some pf |})
  | None =>
      do cands <- mapSlice (pb_Candidates resp) Candidate_fromProto;
      match firstBlocked cands with
      | Some c =>
          Ret (inr {| BlockedError_Candidate := Some c;
                      BlockedError_PromptFeedback := None |})
      | None =>
          Ret (inl {| Candidates := cands;
                      GenerateContentResponse_PromptFeedback := None |})
      end
  end.

Record GenerateContentResponseIterator : Type := {
  iter_sc : StreamClient;
  iter_err : option error;
  iter_merged : option (GenerateContentResponse Citation SafetyRating PromptFeedback);
  iter_cs : option ChatSession;
}.

(** [Next] returns the pair of Go results and the new state of the
    iterator. *)
Definition Next (iter : GenerateContentResponseIterator)
  : exec ((option (GenerateContentResponse Citation SafetyRating PromptFeedback)
           * option error) * GenerateContentResponseIterator) :=
  match iter_err iter with
  | Some e => Ret ((None, Some e), iter)
  | None =>
      let '((resp, err), sc) := Recv (iter_sc iter) in
      match err with
      | Some io_EOF =>
          do told <- match iter_cs iter, iter_merged iter with
                     | Some cs, Some merged =>
                         do added <- addToHistory cs (Candidates merged);
                         Ret (Some (fst added),
                              Some {| Candidates := snd added;
                                      GenerateContentResponse_PromptFeedback :=
                                        GenerateContentResponse_PromptFeedback merged |})
                     | cs, merged => Ret (cs, merged)
                     end;
          Ret ((None, Some iterator_Done),
               {| iter_sc := sc; iter_err := Some io_EOF;
                  iter_merged := snd told; iter_cs := fst told |})
      | Some e =>
          Ret ((None, Some e),
               {| iter_sc := sc; iter_err := Some e;
                  iter_merged := iter_merged iter; iter_cs := iter_cs iter |})
      | None =>
          match resp with
          | None => Panic
          | Some resp =>
              do decoded <- protoToResponse resp;
              match decoded with
              | inr blocked =>
                  Ret ((None, Some (error_BlockedError blocked)),
                       {| iter_sc := sc;
                          iter_err := Some (error_BlockedError blocked);
                          iter_merged := iter_merged iter;
                          iter_cs := iter_cs iter |})
              | inl gcp =>
                  do merged <- joinResponses (iter_merged iter) gcp;
                  Ret ((Some gcp, None),
                       {| iter_sc := sc; iter_err := None;
                          iter_merged := Some merged; iter_cs := iter_cs iter |})
              end
          end
      end
  end.

(** The [for] loop of [generateContent]; [None] when [fuel] calls of
    [Next] did not end it. *)
Fixpoint generateContent_loop (fuel : nat) (iter : GenerateContentResponseIterator)
  : option (exec (option (GenerateContentResponse Citation SafetyRating PromptFeedback)
                  * option error)) :=
  match fuel with
  | O => None
  | S fuel' =>
      match Next iter with
      | Panic => Some Panic
      | Ret ((_, err), iter') =>
          match err with
          | Some iterator_Done => Some (Ret (iter_merged iter', None))
          | Some e => Some (Ret (None, Some e))
          | None => generateContent_loop fuel' iter'
          end
      end
  end.

(** [generateContent], from the two results of
    [m.c.c.StreamGenerateContent(ctx, req)] on. *)
Definition generateContent (fuel : nat) (streamClient : StreamClient)
    (err : option error) :=
  generateContent_loop fuel
    {| iter_sc := streamClient; iter_err := err;
       iter_merged := None; iter_cs := None |}.

(** The stream hands out the messages [msgs], one per [Recv], and then
reports the end of the stream, which leaves it in the state [closed]. *)
Fixpoint delivers (sc : StreamClient) (msgs : list pb_GenerateContentResponse)
    (closed : StreamClient) : Prop :=
  match msgs with
  | [] => ∃ msg, Recv sc = ((msg, Some io_EOF), closed)
  | msg :: msgs' =>
      ∃ sc', Recv sc = ((Some msg, None), sc') ∧ delivers sc' msgs' closed
  end.

End Iterator.

Arguments GenerateContentResponseIterator : clear implicits.
Arguments PromptFeedback_fromProto {_ _ _ _ _ _ _ _ _} _.
Arguments Candidate_fromProto {_ _ _ _ _ _ _ _ _} _.
Arguments Recv {_ _ _ _ _ _ _ _ _} _.
Arguments addToHistory {_ _ _ _ _ _ _ _ _} _ _.
Arguments io_EOF {Citation SafetyRating PromptFeedback OtherError}.
Arguments iterator_Done {Citation SafetyRating PromptFeedback OtherError}.
Arguments error_BlockedError {Citation SafetyRating PromptFeedback OtherError} e.
Arguments error_Other {Citation SafetyRating PromptFeedback OtherError} e.

(** ** Test doubles *)

(** A stream client that delivers the messages of a script and then keeps
    returning its closing error; it counts the calls of [Recv]. *)
Record ScriptedStream (R E : Type) : Type := {
  script_messages : list R;
  script_closing : E;
  script_recvs : nat;
}.

Definition ScriptedStream_Recv {R E : Type} (sc : ScriptedStream R E)
  : (option R * option E) * ScriptedStream R E :=
  match script_messages sc with
  | r :: rest =>
      ((Some r, None),
       {| script_messages := rest; script_closing := script_closing sc;
          script_recvs := S (script_recvs sc) |})
  | [] =>
      ((None, Some (script_closing sc)),
       {| script_messages := []; script_closing := script_closing sc;
          script_recvs := S (script_recvs sc) |})
  end.

(** Collaborators for the examples: citations, safety ratings, prompt
    feedback and transport errors are strings, the wire form of a candidate
    is the candidate itself, and a chat session is its history, to which
    [addToHistory] adds the candidates it is given. *)
#[global] Instance scripted :
  Collaborators string string string string (Candidate string string) string
    (ScriptedStream
       (pb_GenerateContentResponse string (Candidate string string))
       (error string string string string))
    (list (list (Candidate string string))) := {|
  PromptFeedback_fromProto := id;
  Candidate_fromProto := Ret;
  Recv := ScriptedStream_Recv;
  addToHistory := λ history cands, Ret (history ++ [cands], cands);
|}.

(** The same collaborators with a chat session that reads the content of
    the first candidate it is given, and panics when there is none. *)
Definition strict_session :
  Collaborators string string string string (Candidate string string) string
    (ScriptedStream
       (pb_GenerateContentResponse string (Candidate string string))
       (error string string string string))
    (list (list (Candidate string string))) := {|
  PromptFeedback_fromProto := id;
  Candidate_fromProto := Ret;
  Recv := ScriptedStream_Recv;
  addToHistory := λ history cands,
    match cands with
    | c :: _ =>
        match Candidate_Content c with
        | Some _ => Ret (history ++ [cands], cands)
        | None => Panic
        end
    | [] => Ret (history, cands)
    end;
|}.

(** Candidates for the examples: one without content, one with the given
    parts, one with a single text; and a chunk made of candidates. *)
Definition bare_candidate (Citation SafetyRating : Type) (index : Z)
  : Candidate Citation SafetyRating :=
  {| Candidate_Index := index;
     Candidate_Content := None;
     Candidate_FinishReason := FinishReasonUnspecified;
     Candidate_SafetyRatings := [];
     Candidate_CitationMetadata := None |}.
Arguments bare_candidate {Citation SafetyRating} index.

Definition parts_candidate (Citation SafetyRating : Type) (index : Z)
    (parts : list Part) : Candidate Citation SafetyRating :=
  {| Candidate_Index := index;
     Candidate_Content := Some {| Content_Role := "model"; Content_Parts := parts |};
     Candidate_FinishReason := FinishReasonUnspecified;
     Candidate_SafetyRatings := [];
     Candidate_CitationMetadata := None |}.
Arguments parts_candidate {Citation SafetyRating} index parts.

Definition text_candidate (Citation SafetyRating : Type) (index : Z) (t : string)
  : Candidate Citation SafetyRating :=
  parts_candidate index [Text t].
Arguments text_candidate {Citation SafetyRating} index t.

(** The same candidate, stopped by the safety filter. *)
Definition blocked (Citation SafetyRating : Type)
    (c : Candidate Citation SafetyRating) : Candidate Citation SafetyRating :=
  {| Candidate_Index := Candidate_Index c;
     Candidate_Content := Candidate_Content c;
     Candidate_FinishReason := FinishReasonSafety;
     Candidate_SafetyRatings := Candidate_SafetyRatings c;
     Candidate_CitationMetadata := Candidate_CitationMetadata c |}.

(** A candidate with a single text, a finish reason, safety ratings and
    citation metadata that holds the given citations. *)
Definition cited_candidate (Citation SafetyRating : Type) (index : Z)
    (t : string) (reason : FinishReason) (ratings : list SafetyRating)
    (cites : list Citation) : Candidate Citation SafetyRating :=
  {| Candidate_Index := index;
     Candidate_Content :=
       Some {| Content_Role := "model"; Content_Parts := [Text t] |};
     Candidate_FinishReason := reason;
     Candidate_SafetyRatings := ratings;
     Candidate_CitationMetadata :=
       Some {| CitationMetadata_Citations := cites |} |}.
Arguments cited_candidate {Citation SafetyRating} index t reason ratings cites.

Definition chunk_of (Citation SafetyRating PromptFeedback : Type)
    (cands : list (Candidate Citation SafetyRating))
  : GenerateContentResponse Citation SafetyRating PromptFeedback :=
  {| Candidates := cands; GenerateContentResponse_PromptFeedback := None |}.
Arguments chunk_of {Citation SafetyRating PromptFeedback} cands.

(** An iterator over a scripted stream, as [GenerateContentStream] builds
    it once the stream is open. *)
Definition scripted_iterator
    (messages : list (pb_GenerateContentResponse string (Candidate string string)))
    (closing : error string string string string)
  : GenerateContentResponseIterator string string string string
      (ScriptedStream
         (pb_GenerateContentResponse string (Candidate string string))
         (error string string string string))
      (list (list (Candidate string string))) :=
  {| iter_sc := {| script_messages := messages; script_closing := closing;
                   script_recvs := 0 |};
     iter_err := None;
     iter_merged := None;
     iter_cs := None |}.

(** The candidate index set of a candidate list, and the union of the
    index sets of the chunks of a stream. *)
Definition index_set {Citation SafetyRating : Type}
    (cands : list (Candidate Citation SafetyRating)) : gset Z :=
  list_to_set (indices cands).

Definition seen_indices {Citation SafetyRating PromptFeedback : Type}
    (chunks : list (GenerateContentResponse Citation SafetyRating PromptFeedback))
  : gset Z :=
  ⋃ (map (λ chunk, index_set (Candidates chunk)) chunks).

(** ** Further code of the file *)

(** *** Parts on the wire *)

(** The wire messages [pb.Blob] and [pb.FileData], with the fields that
[partFromProto] reads. *)
Record pb_Blob : Type := {
  pb_Blob_MimeType : string;
  pb_Blob_Data : list byte;
}.

Record pb_FileData : Type := {
  pb_FileData_MimeType : string;
  pb_FileData_FileUri : string;
}.

(** The one-of [Data] of a [pb.Part], an interface value that holds a
pointer to a wrapper: one of the three wrappers that the type switch of
[partFromProto] names, or a wrapper of another kind.  The pointer may be a
nil pointer of its type ([None]), on which the type switch still matches;
the message inside [pb.Part_InlineData] and [pb.Part_FileData] may be nil
too (the inner [None]). *)
Inductive pb_isPart_Data : Type :=
  | pb_Part_Text (wrapper : option string)
  | pb_Part_InlineData (wrapper : option (option pb_Blob))
  | pb_Part_FileData (wrapper : option (option pb_FileData))
  | pb_Part_other.

(** [ImageData(format, data)]. *)
Definition ImageData (format : string) (data : list byte) : Part :=
  Blob ("image/" +:+ format) data.

Section PartsOnTheWire.

(** What a [pb.Part] holds beside [Data], and the value of that in a
message built as [&pb.Part{Data: ...}]. *)
Variable pb_Part_rest : Type.
Variable pb_Part_rest_zero : pb_Part_rest.

(** [Data] is an interface value and may be nil. *)
Record pb_Part : Type := {
  pb_Part_Data : option pb_isPart_Data;
  pb_Part_Rest : pb_Part_rest;
}.

(** [Blob.toProto] and [FileData.toProto] are generated code; they take the
two fields of the value. *)
Variable Blob_toProto : string → list byte → option pb_Blob.
Variable FileData_toProto : string → string → option pb_FileData.

(** The three methods [toPart]. *)
Definition toPart (p : Part) : pb_Part :=
  match p with
  | Text t =>
      {| pb_Part_Data := Some (pb_Part_Text (Some t));
         pb_Part_Rest := pb_Part_rest_zero |}
  | Blob mime data =>
      {| pb_Part_Data := Some (pb_Part_InlineData (Some (Blob_toProto mime data)));
         pb_Part_Rest := pb_Part_rest_zero |}
  | FileData mime uri =>
      {| pb_Part_Data := Some (pb_Part_FileData (Some (FileData_toProto mime uri)));
         pb_Part_Rest := pb_Part_rest_zero |}
  end.

(** [partToProto]; a nil [Part] is [None]. *)
Definition partToProto (p : option Part) : option pb_Part :=
  match p with
  | None => None
  | Some p => Some (toPart p)
  end.

(** [partFromProto]: [p.Data] dereferences [p]; [d.Text] dereferences the
wrapper, [d.InlineData.MimeType] and [d.FileData.MimeType] the wrapper and
the message in it; the [default] case of the type switch panics. *)
Definition partFromProto (p : option pb_Part) : exec Part :=
  match p with
  | None => Panic
  | Some p =>
      match pb_Part_Data p with
      | Some (pb_Part_Text (Some t)) => Ret (Text t)
      | Some (pb_Part_Text None) => Panic
      | Some (pb_Part_InlineData (Some (Some b))) =>
          Ret (Blob (pb_Blob_MimeType b) (pb_Blob_Data b))
      | Some (pb_Part_InlineData _) => Panic
      | Some (pb_Part_FileData (Some (Some f))) =>
          Ret (FileData (pb_FileData_MimeType f) (pb_FileData_FileUri f))
      | Some (pb_Part_FileData _) => Panic
      | Some pb_Part_other => Panic
      | None => Panic
      end
  end.

End PartsOnTheWire.

Arguments partFromProto {pb_Part_rest} p.

(** *** Dates *)

(** [civil.Date]: [Year] and [Day] are Go [int]s and [Month] a
[time.Month], an [int] too. *)
Record civil_Date : Type := {
  civil_Year : Z;
  civil_Month : Z;
  civil_Day : Z;
}.

(** [date.Date], with [int32] fields. *)
Record date_Date : Type := {
  date_Year : Z;
  date_Month : Z;
  date_Day : Z;
}.

(** The conversion [int32(x)] of a Go [int]: the low 32 bits, signed. *)
Definition int32 (x : Z) : Z :=
  ((x + 2 ^ 31) `mod` 2 ^ 32 - 2 ^ 31)%Z.

(** The values of an [int32]. *)
Definition is_int32 (x : Z) : Prop :=
  (- 2 ^ 31 ≤ x < 2 ^ 31)%Z.

Definition civilDateToProto (d : civil_Date) : date_Date :=
  {| date_Year := int32 (civil_Year d);
     date_Month := int32 (civil_Month d);
     date_Day := int32 (civil_Day d) |}.

(** The conversions [int(p.Year)], [time.Month(p.Month)] and [int(p.Day)]
of an [int32] keep the value. *)
Definition civilDateFromProto (p : option date_Date) : civil_Date :=
  match p with
  | None => {| civil_Year := 0; civil_Month := 0; civil_Day := 0 |}
  | Some p =>
      {| civil_Year := date_Year p;
         civil_Month := date_Month p;
         civil_Day := date_Day p |}
  end.

(** *** The message of a blocked error *)

Section BlockedErrorMessage.

Variables Citation SafetyRating PromptFeedback : Type.

(** The [String] method of [FinishReason] (for the verb [%s]), the text
that the verb [%v] prints for the field [BlockReason] of a prompt feedback,
and its field [BlockReasonMessage]: generated code. *)
Variable FinishReason_String : FinishReason → string.
Variable BlockReason_text : PromptFeedback → string.
Variable BlockReasonMessage : PromptFeedback → string.

(** The method [Error] of [BlockedError]: the [Fprintf]s into the builder. *)
Definition BlockedError_Error
    (e : BlockedError Citation SafetyRating PromptFeedback) : string :=
  let b := "blocked: " in
  let b :=
    match BlockedError_Candidate e with
    | Some c => b +:+ "candidate: " +:+ FinishReason_String (Candidate_FinishReason c)
    | None => b
    end in
  match BlockedError_PromptFeedback e with
  | Some pf =>
      let b :=
        match BlockedError_Candidate e with
        | Some _ => b +:+ ", "
        | None => b
        end in
      b +:+ "prompt: " +:+ BlockReason_text pf
        +:+ " (" +:+ BlockReasonMessage pf +:+ ")"
  | None => b
  end.

End BlockedErrorMessage.

(** *** Streams and their merged candidates *)

Section Streams.

Variables Citation SafetyRating PromptFeedback : Type.
Variables pb_PromptFeedback pb_Candidate OtherError : Type.
Context {StreamClient ChatSession : Type}.
Context {collab : Collaborators Citation SafetyRating PromptFeedback
                    pb_PromptFeedback pb_Candidate OtherError
                    StreamClient ChatSession}.

(** [GenerateContentStream], from the two results of
[m.c.c.StreamGenerateContent(ctx, req)] on. *)
Definition GenerateContentStream (streamClient : StreamClient)
    (err : option (error Citation SafetyRating PromptFeedback OtherError))
  : GenerateContentResponseIterator Citation SafetyRating PromptFeedback
      OtherError StreamClient ChatSession :=
  {| iter_sc := streamClient; iter_err := err;
     iter_merged := None; iter_cs := None |}.

(** The stream hands out the messages [msgs], one per [Recv], and then
fails with the error [e], which leaves it in the state [closed]. *)
Fixpoint delivers_until (sc : StreamClient)
    (msgs : list (pb_GenerateContentResponse pb_PromptFeedback pb_Candidate))
    (e : error Citation SafetyRating PromptFeedback OtherError)
    (closed : StreamClient) : Prop :=
  match msgs with
  | [] => ∃ msg, Recv sc = ((msg, Some e), closed)
  | msg :: msgs' =>
      ∃ sc', Recv sc = ((Some msg, None), sc') ∧ delivers_until sc' msgs' e closed
  end.

(** The stream hands out the messages [msgs] and then the message [msg]. *)
Fixpoint delivers_then (sc : StreamClient)
    (msgs : list (pb_GenerateContentResponse pb_PromptFeedback pb_Candidate))
    (msg : pb_GenerateContentResponse pb_PromptFeedback pb_Candidate)
    (after : StreamClient) : Prop :=
  match msgs with
  | [] => Recv sc = ((Some msg, None), after)
  | msg0 :: msgs' =>
      ∃ sc', Recv sc = ((Some msg0, None), sc') ∧ delivers_then sc' msgs' msg after
  end.

(** The aggregate of an iterator holds no prompt feedback and no candidate
stopped by the safety filter. *)
Definition unblocked (r : GenerateContentResponse Citation SafetyRating PromptFeedback)
  : Prop :=
  GenerateContentResponse_PromptFeedback r = None
  ∧ Forall (λ c, Candidate_FinishReason c ≠ FinishReasonSafety) (Candidates r).

(** The source candidate that a merge of [chunk] uses for the index [i]. *)
Definition srcCandidate (i : Z)
    (chunk : GenerateContentResponse Citation SafetyRating PromptFeedback)
  : option (Candidate Citation SafetyRating) :=
  indexToSrcCandidate (Candidates chunk) !! i.

(** What a chunk brings for the index [i]: parts and citations. *)
Definition parts_from (i : Z)
    (chunk : GenerateContentResponse Citation SafetyRating PromptFeedback)
  : list Part :=
  match srcCandidate i chunk with
  | Some s => parts_of (Candidate_Content s)
  | None => []
  end.

Definition citations_from (i : Z)
    (chunk : GenerateContentResponse Citation SafetyRating PromptFeedback)
  : list Citation :=
  match srcCandidate i chunk with
  | Some s => citations_of (Candidate_CitationMetadata s)
  | None => []
  end.

(** The source candidate for the index [i] of the last chunk that has
one. *)
Definition lastSrcCandidate (i : Z)
    (chunks : list (GenerateContentResponse Citation SafetyRating PromptFeedback))
  : option (Candidate Citation SafetyRating) :=
  last (omap (srcCandidate i) chunks).

End Streams.

Arguments GenerateContentStream {_ _ _ _ _ _} streamClient err.
Arguments delivers_until {_ _ _ _ _ _ _ _ _} sc msgs e closed.
Arguments delivers_then {_ _ _ _ _ _ _ _ _} sc msgs msg after.

(** *** The merge on shared objects *)

(** The merge as the code runs it: a candidate holds pointers to a
[Content] and to a [CitationMetadata] object, [joinContent] and
[joinCitationMetadata] write to the object of the destination, and a
destination candidate whose pointer is nil takes over the pointer of the
source.  A pointer is a position in the list of the objects allocated so
far; decoding a chunk allocates a new object for every content and every
citation metadata that it holds.  (A pointer of a run always lies inside
the heap; a position outside reads as the zero object and is not written.) *)

#[global] Instance Content_inhabited : Inhabited Content :=
  populate {| Content_Role := ""; Content_Parts := [] |}.

#[global] Instance CitationMetadata_inhabited (Citation : Type)
  : Inhabited (CitationMetadata Citation) :=
  populate {| CitationMetadata_Citations := [] |}.

Section SharedObjects.

Variables Citation SafetyRating PromptFeedback : Type.

Record Heap : Type := {
  Heap_Content : list Content;
  Heap_CitationMetadata : list (CitationMetadata Citation);
}.

(** A [Candidate] with its two pointers. *)
Record CandidateRef : Type := {
  Ref_Index : Z;
  Ref_Content : option nat;
  Ref_FinishReason : FinishReason;
  Ref_SafetyRatings : list SafetyRating;
  Ref_CitationMetadata : option nat;
}.

Record ResponseRef : Type := {
  Ref_Candidates : list CandidateRef;
  Ref_PromptFeedback : option PromptFeedback;
}.

(** [joinCitationMetadata]: [dest.Citations = append(...)] writes to the
object that [dest] points to. *)
Definition joinCitationMetadata_heap
    (objects : list (CitationMetadata Citation)) (dest src : option nat)
  : list (CitationMetadata Citation) * option nat :=
  match dest with
  | None => (objects, src)
  | Some d =>
      match src with
      | None => (objects, dest)
      | Some s =>
          (<[d := {| CitationMetadata_Citations :=
                       CitationMetadata_Citations (objects !!! d)
                       ++ CitationMetadata_Citations (objects !!! s) |}]> objects,
           dest)
      end
  end.

(** [joinContent]: [dest.Parts = joinParts(...)] writes to the object that
[dest] points to. *)
Definition joinContent_heap (objects : list Content) (dest src : option nat)
  : exec (list Content * option nat) :=
  match dest with
  | None => Ret (objects, src)
  | Some d =>
      match src with
      | None => Panic
      | Some s =>
          Ret (<[d := {| Content_Role := Content_Role (objects !!! d);
                         Content_Parts :=
                           joinParts (Content_Parts (objects !!! d))
                                     (Content_Parts (objects !!! s)) |}]> objects,
               dest)
      end
  end.

Definition indexToSrcCandidate_heap (src : list CandidateRef)
  : gmap Z CandidateRef :=
  foldl (λ m s, <[Ref_Index s := s]> m) ∅ src.

(** The assignments under [if s != nil]. *)
Definition joinCandidate_heap (h : Heap) (d s : CandidateRef)
  : exec (Heap * CandidateRef) :=
  do content <- joinContent_heap (Heap_Content h) (Ref_Content d) (Ref_Content s);
  let metadata :=
    joinCitationMetadata_heap (Heap_CitationMetadata h)
      (Ref_CitationMetadata d) (Ref_CitationMetadata s) in
  Ret ({| Heap_Content := fst content; Heap_CitationMetadata := fst metadata |},
       {| Ref_Index := Ref_Index d;
          Ref_Content := snd content;
          Ref_FinishReason := Ref_FinishReason s;
          Ref_SafetyRatings := Ref_SafetyRatings s;
          Ref_CitationMetadata := snd metadata |}).

Fixpoint joinCandidateLists_loop_heap (m : gmap Z CandidateRef) (h : Heap)
    (dest : list CandidateRef) : exec (Heap * list CandidateRef) :=
  match dest with
  | [] => Ret (h, [])
  | d :: dest' =>
      do first <- match m !! Ref_Index d with
                  | Some s => joinCandidate_heap h d s
                  | None => Ret (h, d)
                  end;
      do rest <- joinCandidateLists_loop_heap m (fst first) dest';
      Ret (fst rest, snd first :: snd rest)
  end.

Definition joinCandidateLists_heap (h : Heap) (dest src : list CandidateRef)
  : exec (Heap * list CandidateRef) :=
  joinCandidateLists_loop_heap (indexToSrcCandidate_heap src) h dest.

Definition joinResponses_heap (h : Heap) (dest : option ResponseRef)
    (src : ResponseRef) : exec (Heap * ResponseRef) :=
  match dest with
  | None => Ret (h, src)
  | Some d =>
      do cands <- joinCandidateLists_heap h (Ref_Candidates d) (Ref_Candidates src);
      Ret (fst cands,
           {| Ref_Candidates := snd cands;
              Ref_PromptFeedback := Ref_PromptFeedback d |})
  end.

(** Decoding allocates: a new object for the content and for the citation
metadata of every candidate that has one. *)
Definition new_object {A : Type} (objects : list A) (value : option A)
  : list A * option nat :=
  match value with
  | Some v => (objects ++ [v], Some (length objects))
  | None => (objects, None)
  end.

Definition new_Candidate (h : Heap) (c : Candidate Citation SafetyRating)
  : Heap * CandidateRef :=
  let content := new_object (Heap_Content h) (Candidate_Content c) in
  let metadata :=
    new_object (Heap_CitationMetadata h) (Candidate_CitationMetadata c) in
  ({| Heap_Content := fst content; Heap_CitationMetadata := fst metadata |},
   {| Ref_Index := Candidate_Index c;
      Ref_Content := snd content;
      Ref_FinishReason := Candidate_FinishReason c;
      Ref_SafetyRatings := Candidate_SafetyRatings c;
      Ref_CitationMetadata := snd metadata |}).

Fixpoint new_Candidates (h : Heap) (cands : list (Candidate Citation SafetyRating))
  : Heap * list CandidateRef :=
  match cands with
  | [] => (h, [])
  | c :: cands' =>
      let first := new_Candidate h c in
      let rest := new_Candidates (fst first) cands' in
      (fst rest, snd first :: snd rest)
  end.

Definition new_Response (h : Heap)
    (r : GenerateContentResponse Citation SafetyRating PromptFeedback)
  : Heap * ResponseRef :=
  let cands := new_Candidates h (Candidates r) in
  (fst cands,
   {| Ref_Candidates := snd cands;
      Ref_PromptFeedback := GenerateContentResponse_PromptFeedback r |}).

(** What a candidate and a response hold, read through their pointers. *)
Definition load_Candidate (h : Heap) (c : CandidateRef)
  : Candidate Citation SafetyRating :=
  {| Candidate_Index := Ref_Index c;
     Candidate_Content := (λ l, Heap_Content h !!! l) <$> Ref_Content c;
     Candidate_FinishReason := Ref_FinishReason c;
     Candidate_SafetyRatings := Ref_SafetyRatings c;
     Candidate_CitationMetadata :=
       (λ l, Heap_CitationMetadata h !!! l) <$> Ref_CitationMetadata c |}.

Definition load_Response (h : Heap) (r : ResponseRef)
  : GenerateContentResponse Citation SafetyRating PromptFeedback :=
  {| Candidates := map (load_Candidate h) (Ref_Candidates r);
     GenerateContentResponse_PromptFeedback := Ref_PromptFeedback r |}.

(** The chunks of a stream, decoded and merged one after the other as
[Next] does, starting from the aggregate [merged]. *)
Fixpoint joinChunks_heap (h : Heap) (merged : option ResponseRef)
    (chunks : list (GenerateContentResponse Citation SafetyRating PromptFeedback))
  : exec (Heap * option ResponseRef) :=
  match chunks with
  | [] => Ret (h, merged)
  | chunk :: chunks' =>
      let src := new_Response h chunk in
      do m <- joinResponses_heap (fst src) merged (snd src);
      joinChunks_heap (fst m) (Some (snd m)) chunks'
  end.

(** The aggregate that a new iterator holds after the chunks, read through
its pointers. *)
Definition joinChunks_shared
    (chunks : list (GenerateContentResponse Citation SafetyRating PromptFeedback))
  : exec (option (GenerateContentResponse Citation SafetyRating PromptFeedback)) :=
  do m <- joinChunks_heap
            {| Heap_Content := []; Heap_CitationMetadata := [] |} None chunks;
  Ret (load_Response (fst m) <$> snd m).

(** The pointer that a merge leaves in a field of the destination. *)
Definition adopted (dest src : option nat) : option nat :=
  match dest with
  | None => src
  | Some _ => dest
  end.

(** The fields of a destination candidate after the second loop of
[joinCandidateLists]. *)
Definition merged_ref (m : gmap Z CandidateRef) (d : CandidateRef)
  : CandidateRef :=
  match m !! Ref_Index d with
  | Some s =>
      {| Ref_Index := Ref_Index d;
         Ref_Content := adopted (Ref_Content d) (Ref_Content s);
         Ref_FinishReason := Ref_FinishReason s;
         Ref_SafetyRatings := Ref_SafetyRatings s;
         Ref_CitationMetadata :=
           adopted (Ref_CitationMetadata d) (Ref_CitationMetadata s) |}
  | None => d
  end.

(** The pointers of a candidate list, and a heap in which the candidates
of a list hold objects of their own. *)
Definition content_pointers (cands : list CandidateRef) : list nat :=
  omap Ref_Content cands.

Definition metadata_pointers (cands : list CandidateRef) : list nat :=
  omap Ref_CitationMetadata cands.

Definition separate (h : Heap) (cands : list CandidateRef) : Prop :=
  NoDup (content_pointers cands)
  ∧ Forall (λ l, l < length (Heap_Content h)) (content_pointers cands)
  ∧ NoDup (metadata_pointers cands)
  ∧ Forall (λ l, l < length (Heap_CitationMetadata h)) (metadata_pointers cands).

End SharedObjects.

(** * Properties *)

(** ** [mergeTexts] *)

Section MergeTexts.

Implicit Types (l rest out : list Part) (p : Part) (t : string).

(** The inner loop consumes the leading texts and nothing else. *)
Lemma mergeTexts_run_spec rest texts :
  ∃ ts rest',
    mergeTexts_run rest texts = ((texts ++ ts), rest')
    ∧ rest = (map Text ts ++ rest')
    ∧ starts_with_text rest' = false.
Proof.
  revert texts. induction rest as [|p rest IH]; intros texts.
  - exists [], []. by rewrite app_nil_r.
  - destruct p as [t| |]; simpl.
    + destruct (IH (texts ++ [t])) as (ts & rest' & -> & -> & Hst).
      exists (t :: ts), rest'. by rewrite <- app_assoc.
    + eexists [], _. by rewrite app_nil_r.
    + eexists [], _. by rewrite app_nil_r.
Qed.

Lemma collapse_no_leading_text l :
  starts_with_text l = false → starts_with_text (collapse_text_runs l) = false.
Proof. destruct l as [|[]]; simpl; done. Qed.

(** A maximal run of texts collapses to the join of its texts. *)
Lemma collapse_text_run t ts rest :
  starts_with_text rest = false →
  collapse_text_runs (Text t :: map Text ts ++ rest)
  = Text (strings_Join (t :: ts) "") :: collapse_text_runs rest.
Proof.
  intros Hst. revert t. induction ts as [|u ts IH]; intros t.
  - simpl. apply collapse_no_leading_text in Hst.
    destruct (collapse_text_runs rest) as [|[]]; simpl in *; done.
  - change (collapse_text_runs (Text t :: map Text (u :: ts) ++ rest))
      with (match collapse_text_runs (Text u :: map Text ts ++ rest) with
            | Text v :: out => Text (t +:+ v) :: out
            | out => Text t :: out
            end).
    rewrite IH. reflexivity.
Qed.

Lemma mergeTexts_loop_collapse (fuel : nat) rest out :
  length rest ≤ fuel →
  mergeTexts_loop fuel rest out = (out ++ collapse_text_runs rest).
Proof.
  revert rest out. induction fuel as [|fuel IH]; intros rest out Hlen.
  - destruct rest; simpl in *; [by rewrite app_nil_r | lia].
  - destruct rest as [|p rest]; [by rewrite app_nil_r|].
    simpl in Hlen.
    destruct p as [t|mime data|mime uri].
    + cbn [mergeTexts_loop].
      destruct (mergeTexts_run_spec rest [t]) as (ts & rest' & -> & -> & Hst).
      rewrite IH.
      * rewrite collapse_text_run by done. by rewrite <- app_assoc.
      * rewrite length_app in Hlen. lia.
    + cbn [mergeTexts_loop]. rewrite IH by lia. by rewrite <- app_assoc.
    + cbn [mergeTexts_loop]. rewrite IH by lia. by rewrite <- app_assoc.
Qed.

(** [mergeTexts] collapses every maximal run of texts. *)
Lemma mergeTexts_collapse l : mergeTexts l = collapse_text_runs l.
Proof. unfold mergeTexts. by rewrite mergeTexts_loop_collapse. Qed.

(** Fuel beyond the length of the input changes nothing. *)
Lemma mergeTexts_loop_enough (fuel : nat) l :
  length l ≤ fuel → mergeTexts_loop fuel l [] = mergeTexts l.
Proof.
  intros. rewrite mergeTexts_collapse. by rewrite mergeTexts_loop_collapse.
Qed.

Lemma collapse_split l1 p l2 :
  is_text p = false →
  collapse_text_runs (l1 ++ p :: l2)
  = (collapse_text_runs l1 ++ p :: collapse_text_runs l2).
Proof.
  intros Hp. induction l1 as [|q l1 IH].
  - destruct p; simpl in *; done.
  - destruct q as [t| |]; simpl; rewrite IH; try done.
    destruct (collapse_text_runs l1) as [|[]]; simpl; try done.
    destruct p; simpl in *; done.
Qed.

Lemma collapse_no_adjacent l : adjacent_texts (collapse_text_runs l) = false.
Proof.
  induction l as [|p l IH]; [done|].
  destruct p as [t| |]; simpl.
  - destruct (collapse_text_runs l) as [|q out]; [done|].
    destruct q as [u| |]; simpl in *; done.
  - destruct (collapse_text_runs l) as [|q out]; done.
  - destruct (collapse_text_runs l) as [|q out]; done.
Qed.

Lemma collapse_fixpoint l : adjacent_texts l = false → collapse_text_runs l = l.
Proof.
  induction l as [|p l IH]; [done|]. intros Hadj.
  assert (adjacent_texts l = false) as Hl.
  { destruct l as [|q l]; [done|]. simpl in Hadj.
    apply orb_false_iff in Hadj as [_ H]. exact H. }
  destruct p as [t| |]; simpl; rewrite IH by done; try done.
  destruct l as [|[]]; simpl in *; done.
Qed.

Lemma string_app_assoc (s1 s2 s3 : string) :
  (s1 +:+ s2) +:+ s3 = s1 +:+ s2 +:+ s3.
Proof.
  induction s1 as [|a s1 IH]; [reflexivity|].
  change (String a ((s1 +:+ s2) +:+ s3) = String a (s1 +:+ s2 +:+ s3)).
  by rewrite IH.
Qed.

Lemma collapse_all_text l : all_text (collapse_text_runs l) = all_text l.
Proof.
  induction l as [|p l IH]; [done|].
  destruct p as [t| |]; simpl; try done.
  rewrite <- IH.
  destruct (collapse_text_runs l) as [|[u| |] out]; simpl; try done.
  by rewrite string_app_assoc.
Qed.

Lemma collapse_non_text_parts l :
  non_text_parts (collapse_text_runs l) = non_text_parts l.
Proof.
  unfold non_text_parts.
  induction l as [|p l IH]; [done|].
  destruct p as [t| |]; simpl.
  - rewrite filter_cons_False by done. rewrite <- IH.
    destruct (collapse_text_runs l) as [|[u| |] out]; simpl;
      rewrite ?filter_cons_False by done; try done.
    all: by rewrite (filter_cons_False _ (Text t)).
  - rewrite !filter_cons_True by done. by rewrite IH.
  - rewrite !filter_cons_True by done. by rewrite IH.
Qed.

End MergeTexts.

(** C8: text collapsing never crosses a part that is not a [Text]: around
    such a part [mergeTexts] works on the two sides separately, and
    [Text "a"], a [Blob], [Text "b"] stay three parts. *)
Theorem C8_mergeTexts_stops_at_non_text :
  (∀ (l1 : list Part) (p : Part) (l2 : list Part),
     is_text p = false →
     mergeTexts (l1 ++ p :: l2) = (mergeTexts l1 ++ p :: mergeTexts l2))
  ∧ (∀ (mime : string) (x : list byte),
       mergeTexts [Text "a"; Blob mime x; Text "b"]
       = [Text "a"; Blob mime x; Text "b"]).
Proof.
  split.
  - intros l1 p l2 Hp. rewrite !mergeTexts_collapse. by apply collapse_split.
  - intros mime x. reflexivity.
Qed.

Lemma C8_witness :
  is_text (FileData "image/png" "gs://bucket/sky.png") = false
  ∧ mergeTexts ([Text "The"; Text " sky"]
                ++ FileData "image/png" "gs://bucket/sky.png"
                   :: [Text " is"; Text " blue."])
    = (mergeTexts [Text "The"; Text " sky"]
       ++ FileData "image/png" "gs://bucket/sky.png"
          :: mergeTexts [Text " is"; Text " blue."]).
Proof.
  split; [reflexivity|].
  apply (proj1 C8_mergeTexts_stops_at_non_text). reflexivity.
Defined.

(** C10: [mergeTexts] is content-preserving and idempotent: its output has
    no two adjacent [Text] parts, the same text in order and the same parts
    that are not [Text] as its input, and it is unchanged by a second
    [mergeTexts]. *)
Theorem C10_mergeTexts_preserving_idempotent (l : list Part) :
  adjacent_texts (mergeTexts l) = false
  ∧ all_text (mergeTexts l) = all_text l
  ∧ non_text_parts (mergeTexts l) = non_text_parts l
  ∧ mergeTexts (mergeTexts l) = mergeTexts l.
Proof.
  rewrite !mergeTexts_collapse. split_and!.
  - apply collapse_no_adjacent.
  - apply collapse_all_text.
  - apply collapse_non_text_parts.
  - apply collapse_fixpoint, collapse_no_adjacent.
Qed.

(** ** The merge of chunks *)

Section Merge.

Variables Citation SafetyRating PromptFeedback : Type.

Notation Candidate := (Candidate Citation SafetyRating).
Notation Response := (GenerateContentResponse Citation SafetyRating PromptFeedback).

Implicit Types (d s : Candidate) (dest src out : list Candidate)
  (m : gmap Z Candidate) (i : Z).

(** The source candidate found for an index is the last one of the source
    list with that index. *)
Lemma indexToSrcCandidate_foldl src m i :
  foldl (λ m s, <[Candidate_Index s := s]> m) m src !! i
  = match last (filter (λ s, Candidate_Index s = i) src) with
    | Some s => Some s
    | None => m !! i
    end.
Proof.
  revert m. induction src as [|s src IH]; intros m; [done|].
  cbn [foldl]. rewrite IH, filter_cons.
  destruct (decide (Candidate_Index s = i)) as [Heq|Hne].
  - rewrite last_cons.
    destruct (last (filter _ src)); [done|].
    by rewrite Heq, lookup_insert_eq.
  - destruct (last (filter _ src)); [done|].
    by rewrite lookup_insert_ne.
Qed.

Lemma indexToSrcCandidate_lookup src i :
  indexToSrcCandidate src !! i
  = last (filter (λ s, Candidate_Index s = i) src).
Proof.
  unfold indexToSrcCandidate. rewrite indexToSrcCandidate_foldl.
  by destruct (last _).
Qed.

Lemma indexToSrcCandidate_elem src i s :
  indexToSrcCandidate src !! i = Some s → s ∈ src ∧ Candidate_Index s = i.
Proof.
  rewrite indexToSrcCandidate_lookup. intros H%last_Some_elem_of.
  by apply list_elem_of_filter in H as [? ?].
Qed.

Lemma joinCandidate_Ret d s d' :
  joinCandidate d s = Ret d' →
  Candidate_Index d' = Candidate_Index d
  ∧ joinContent (Candidate_Content d) (Candidate_Content s)
    = Ret (Candidate_Content d')
  ∧ Candidate_FinishReason d' = Candidate_FinishReason s
  ∧ Candidate_SafetyRatings d' = Candidate_SafetyRatings s
  ∧ Candidate_CitationMetadata d'
    = joinCitationMetadata (Candidate_CitationMetadata d)
                           (Candidate_CitationMetadata s).
Proof.
  unfold joinCandidate.
  destruct (joinContent _ _) as [content|]; simpl; [|done].
  intros [= <-]. done.
Qed.

Lemma joinCandidate_defined d s :
  has_content s → ∃ d', joinCandidate d s = Ret d'.
Proof.
  intros [sc Hsc]. unfold joinCandidate. rewrite Hsc.
  destruct (Candidate_Content d); simpl; eauto.
Qed.

(** What the loop over [dest] does to the candidate at a position. *)
Lemma joinCandidateLists_loop_lookup m dest out (n : nat) d :
  joinCandidateLists_loop m dest = Ret out →
  dest !! n = Some d →
  ∃ d', out !! n = Some d'
        ∧ match m !! Candidate_Index d with
          | Some s => joinCandidate d s = Ret d'
          | None => d' = d
          end.
Proof.
  revert out n. induction dest as [|d0 dest IH]; intros out n Hloop Hn; [done|].
  cbn [joinCandidateLists_loop] in Hloop.
  destruct (match m !! Candidate_Index d0 with
            | Some s => joinCandidate d0 s | None => Ret d0 end)
    as [d0'|] eqn:Hd0; simpl in Hloop; [|done].
  destruct (joinCandidateLists_loop m dest) as [rest|] eqn:Hrest;
    simpl in Hloop; [|done].
  injection Hloop as <-.
  destruct n as [|n]; simpl in *.
  - injection Hn as ->. exists d0'. split; [done|].
    destruct (m !! Candidate_Index d); [done | by injection Hd0].
  - by apply IH.
Qed.

Lemma joinCandidateLists_loop_indices m dest out :
  joinCandidateLists_loop m dest = Ret out → indices out = indices dest.
Proof.
  revert out. induction dest as [|d dest IH]; intros out Hloop.
  - by injection Hloop as <-.
  - cbn [joinCandidateLists_loop] in Hloop.
    destruct (match m !! Candidate_Index d with
              | Some s => joinCandidate d s | None => Ret d end)
      as [d'|] eqn:Hd; simpl in Hloop; [|done].
    destruct (joinCandidateLists_loop m dest) as [rest|] eqn:Hrest;
      simpl in Hloop; [|done].
    injection Hloop as <-. unfold indices in *. simpl. f_equal; [|by apply IH].
    destruct (m !! Candidate_Index d) as [s|].
    + by apply joinCandidate_Ret in Hd as [? _].
    + by injection Hd as <-.
Qed.

Lemma joinCandidateLists_loop_defined m dest :
  (∀ i s, m !! i = Some s → has_content s) →
  ∃ out, joinCandidateLists_loop m dest = Ret out.
Proof.
  intros Hm. induction dest as [|d dest [rest IH]]; [by eexists|].
  cbn [joinCandidateLists_loop]. rewrite IH.
  destruct (m !! Candidate_Index d) as [s|] eqn:Hs.
  - destruct (joinCandidate_defined d (Hm _ _ Hs)) as [d' ->]. by eexists.
  - by eexists.
Qed.

Lemma joinCandidateLists_defined dest src :
  Forall (@has_content _ _) src → ∃ out, joinCandidateLists dest src = Ret out.
Proof.
  intros Hsrc. apply joinCandidateLists_loop_defined.
  intros i s [Hin _]%indexToSrcCandidate_elem.
  by eapply Forall_forall in Hsrc.
Qed.

Lemma joinCandidateLists_indices dest src out :
  joinCandidateLists dest src = Ret out → indices out = indices dest.
Proof. apply joinCandidateLists_loop_indices. Qed.

Lemma joinResponses_defined (dest : option Response) (src : Response) :
  Forall (@has_content _ _) (Candidates src) →
  ∃ r, joinResponses dest src = Ret r.
Proof.
  intros Hsrc. destruct dest as [d|]; simpl; [|by eexists].
  destruct (joinCandidateLists_defined (Candidates d) Hsrc) as [out ->].
  by eexists.
Qed.

Lemma joinResponses_indices (d : Response) (src r : Response) :
  joinResponses (Some d) src = Ret r →
  indices (Candidates r) = indices (Candidates d).
Proof.
  simpl. destruct (joinCandidateLists _ _) as [out|] eqn:Hout; simpl; [|done].
  intros [= <-]. simpl. by eapply joinCandidateLists_indices.
Qed.

(** Merging further chunks into an aggregate keeps its index list. *)
Lemma joinChunks_indices (d : Response) (chunks : list Response) r :
  joinChunks (Some d) chunks = Ret r →
  ∃ agg, r = Some agg ∧ indices (Candidates agg) = indices (Candidates d).
Proof.
  revert d. induction chunks as [|src chunks IH]; intros d Hr.
  - injection Hr as <-. by eexists.
  - cbn [joinChunks] in Hr.
    destruct (joinResponses (Some d) src) as [m|] eqn:Hm; simpl in Hr; [|done].
    destruct (IH _ Hr) as (agg & -> & Hidx).
    exists agg. split; [done|].
    rewrite Hidx. by eapply joinResponses_indices.
Qed.

Lemma joinChunks_defined (merged : option Response) (chunks : list Response) :
  Forall (λ chunk, Forall (@has_content _ _) (Candidates chunk)) chunks →
  ∃ r, joinChunks merged chunks = Ret r.
Proof.
  revert merged. induction chunks as [|src chunks IH]; intros merged Hc.
  - by eexists.
  - apply Forall_cons in Hc as [Hsrc Hc]. cbn [joinChunks].
    destruct (joinResponses_defined merged src Hsrc) as [m ->]. simpl.
    by apply IH.
Qed.

(** C7: merging citation metadata appends the citations of the source
    after those of the destination, in order and with duplicates kept;
    without destination metadata the source's is adopted as it is. *)
Theorem C7_joinCitationMetadata_appends :
  (∀ dest src : option (CitationMetadata Citation),
     citations_of (joinCitationMetadata dest src)
     = (citations_of dest ++ citations_of src))
  ∧ (∀ (d : CitationMetadata Citation) (src : option (CitationMetadata Citation)),
       joinCitationMetadata (Some d) src
       = Some {| CitationMetadata_Citations :=
                   CitationMetadata_Citations d ++ citations_of src |})
  ∧ (∀ src : option (CitationMetadata Citation),
       joinCitationMetadata None src = src)
  ∧ (∀ c1 c2 : Citation,
       joinCitationMetadata
         (Some {| CitationMetadata_Citations := [c1] |})
         (Some {| CitationMetadata_Citations := [c2] |})
       = Some {| CitationMetadata_Citations := [c1; c2] |}).
Proof.
  split_and!.
  - intros [d|] [s|]; simpl; by rewrite ?app_nil_r.
  - intros [cs] [s|]; simpl; by rewrite ?app_nil_r.
  - done.
  - done.
Qed.

(** C6: merging keeps the prompt feedback of the destination, whatever
    the source carries; the merge returns whenever every candidate of the
    source has content. *)
Theorem C6_joinResponses_keeps_PromptFeedback (dest src : Response) :
  (∀ r, joinResponses (Some dest) src = Ret r →
        GenerateContentResponse_PromptFeedback r
        = GenerateContentResponse_PromptFeedback dest)
  ∧ (Forall (@has_content _ _) (Candidates src) →
     ∃ r, joinResponses (Some dest) src = Ret r
          ∧ GenerateContentResponse_PromptFeedback r
            = GenerateContentResponse_PromptFeedback dest).
Proof.
  assert (∀ r, joinResponses (Some dest) src = Ret r →
               GenerateContentResponse_PromptFeedback r
               = GenerateContentResponse_PromptFeedback dest) as Hkeep.
  { intros r. simpl.
    destruct (joinCandidateLists _ _) as [out|]; simpl; [|done].
    by intros [= <-]. }
  split; [done|]. intros Hsrc.
  destruct (joinResponses_defined (Some dest) src Hsrc) as [r Hr]. eauto.
Qed.

(** C1, amended: whenever the chunks of a stream are merged, the
    candidates of the final aggregate are those of the first chunk, index
    by index and in its order; an index that first appears in a later chunk
    is not added.  The merge returns, in particular, whenever every
    candidate of the later chunks has content. *)
Theorem C1_indices_of_first_chunk (first : Response) (rest : list Response) :
  (∀ r, joinChunks None (first :: rest) = Ret r →
        ∃ agg, r = Some agg
               ∧ indices (Candidates agg) = indices (Candidates first)
               ∧ index_set (Candidates agg) = index_set (Candidates first))
  ∧ (Forall (λ chunk, Forall (@has_content _ _) (Candidates chunk)) rest →
     ∃ agg, joinChunks None (first :: rest) = Ret (Some agg)
            ∧ indices (Candidates agg) = indices (Candidates first)
            ∧ index_set (Candidates agg) = index_set (Candidates first)).
Proof.
  assert (∀ r, joinChunks None (first :: rest) = Ret r →
               ∃ agg, r = Some agg
                      ∧ indices (Candidates agg) = indices (Candidates first)
                      ∧ index_set (Candidates agg) = index_set (Candidates first))
    as Hwhenever.
  { intros r Hr. cbn [joinChunks joinResponses exec_bind] in Hr.
    destruct (joinChunks_indices _ _ Hr) as (agg & -> & Hidx).
    exists agg. unfold index_set. by rewrite Hidx. }
  split; [exact Hwhenever|].
  intros Hrest.
  assert (∃ r, joinChunks None (first :: rest) = Ret r) as [r Hr].
  { cbn [joinChunks joinResponses exec_bind].
    apply (joinChunks_defined (Some first) Hrest). }
  destruct (Hwhenever r Hr) as (agg & -> & Hidx & Hset).
  by exists agg.
Qed.


End Merge.

(** ** Decoding and the iterator *)

(** The cases of the branch of [Next] for the end of the stream: the
session and the aggregate, and what [addToHistory] returns for them. *)
Ltac at_end_of_stream iter :=
  destruct (iter_cs iter) as [?cs|]; destruct (iter_merged iter) as [?m|];
  simpl;
  try (destruct (addToHistory _ _) as [?added|]; simpl; [|done]).

Section IteratorProperties.

Context {Citation SafetyRating PromptFeedback : Type}.
Context {pb_PromptFeedback pb_Candidate OtherError : Type}.
Context {StreamClient ChatSession : Type}.
Context {collab : Collaborators Citation SafetyRating PromptFeedback
                    pb_PromptFeedback pb_Candidate OtherError
                    StreamClient ChatSession}.

Notation Candidate := (Candidate Citation SafetyRating).
Notation Iterator :=
  (GenerateContentResponseIterator Citation SafetyRating PromptFeedback
     OtherError StreamClient ChatSession).
Notation pbResponse := (pb_GenerateContentResponse pb_PromptFeedback pb_Candidate).
Notation error := (error Citation SafetyRating PromptFeedback OtherError).

Implicit Types (iter : Iterator) (resp : pbResponse) (e : error)
  (c : Candidate) (cands pre post : list Candidate).

Lemma firstBlocked_first pre c post :
  Forall (λ x, Candidate_FinishReason x ≠ FinishReasonSafety) pre →
  Candidate_FinishReason c = FinishReasonSafety →
  firstBlocked (pre ++ c :: post) = Some c.
Proof.
  intros Hpre Hc. induction Hpre as [|x pre Hx Hpre IH]; simpl.
  - by rewrite decide_True.
  - by rewrite decide_False.
Qed.

Lemma firstBlocked_None cands :
  Forall (λ x, Candidate_FinishReason x ≠ FinishReasonSafety) cands →
  firstBlocked cands = None.
Proof.
  induction 1 as [|x cands Hx Hcands IH]; simpl; [done|].
  by rewrite decide_False.
Qed.

(** An iterator that holds an error returns it and leaves everything,
    the stream included, as it is. *)
Lemma Next_terminal iter e :
  iter_err iter = Some e → Next iter = Ret ((None, Some e), iter).
Proof. intros He. unfold Next. by rewrite He. Qed.

(** A message that decodes to a blocked error ends the iteration with
    that error, which the iterator keeps. *)
Lemma Next_blocked iter resp sc blocked :
  iter_err iter = None →
  Recv (iter_sc iter) = ((Some resp, None), sc) →
  protoToResponse resp = Ret (inr blocked) →
  Next iter
  = Ret ((None, Some (error_BlockedError blocked)),
         {| iter_sc := sc; iter_err := Some (error_BlockedError blocked);
            iter_merged := iter_merged iter; iter_cs := iter_cs iter |}).
Proof. intros He Hrecv Hdec. unfold Next. by rewrite He, Hrecv, Hdec. Qed.

(** C4: a chunk whose prompt feedback decodes to a value makes
    [protoToResponse] fail with a [BlockedError] that carries this
    feedback and no candidate, whatever the candidates of the chunk are:
    they are neither decoded nor looked at.  [Next] returns this error
    and keeps it. *)
Theorem C4_PromptFeedback_blocks_first resp pf :
  PromptFeedback_fromProto (pb_PromptFeedback_ resp) = Some pf →
  protoToResponse resp
  = Ret (inr {| BlockedError_Candidate := None;
                BlockedError_PromptFeedback := Some pf |})
  ∧ (∀ raw_cands,
       protoToResponse {| pb_Candidates := raw_cands;
                          pb_PromptFeedback_ := pb_PromptFeedback_ resp |}
       = Ret (inr {| BlockedError_Candidate := None;
                     BlockedError_PromptFeedback := Some pf |}))
  ∧ (∀ iter sc,
       iter_err iter = None →
       Recv (iter_sc iter) = ((Some resp, None), sc) →
       Next iter
       = Ret ((None,
               Some (error_BlockedError
                       {| BlockedError_Candidate := None;
                          BlockedError_PromptFeedback := Some pf |})),
              {| iter_sc := sc;
                 iter_err :=
                   Some (error_BlockedError
                           {| BlockedError_Candidate := None;
                              BlockedError_PromptFeedback := Some pf |});
                 iter_merged := iter_merged iter;
                 iter_cs := iter_cs iter |})).
Proof.
  intros Hpf.
  assert (∀ raw_cands,
            protoToResponse {| pb_Candidates := raw_cands;
                               pb_PromptFeedback_ := pb_PromptFeedback_ resp |}
            = Ret (inr {| BlockedError_Candidate := None;
                          BlockedError_PromptFeedback := Some pf |})) as Hany.
  { intros raw_cands. unfold protoToResponse. simpl. by rewrite Hpf. }
  assert (protoToResponse resp
          = Ret (inr {| BlockedError_Candidate := None;
                        BlockedError_PromptFeedback := Some pf |})) as Hresp.
  { destruct resp as [raw_cands raw_pf]. apply Hany. }
  split_and!; [done..|].
  intros iter sc He Hrecv. by apply Next_blocked with (resp := resp).
Qed.

(** In a list with a blocked candidate, there is a first one. *)
Lemma first_blocked_split cands :
  Exists (λ x, Candidate_FinishReason x = FinishReasonSafety) cands →
  ∃ pre c post,
    cands = pre ++ c :: post
    ∧ Forall (λ x, Candidate_FinishReason x ≠ FinishReasonSafety) pre
    ∧ Candidate_FinishReason c = FinishReasonSafety.
Proof.
  induction cands as [|x cands IH]; intros Hex; [by apply Exists_nil in Hex|].
  destruct (decide (Candidate_FinishReason x = FinishReasonSafety)) as [Hx|Hx].
  - by exists [], x, cands.
  - apply Exists_cons in Hex as [?|Hex]; [done|].
    destruct (IH Hex) as (pre & c & post & -> & Hpre & Hc).
    exists (x :: pre), c, post. split_and!; [done | by constructor | done].
Qed.

(** C5: a chunk without prompt feedback whose candidates decode to a list
with at least one safety-blocked candidate makes [protoToResponse] fail
with a [BlockedError] that carries the first such candidate of the list,
whatever the other candidates are; [Next] returns this error and keeps
it. *)
Theorem C5_first_blocked_candidate resp cands :
  PromptFeedback_fromProto (pb_PromptFeedback_ resp) = None →
  mapSlice (pb_Candidates resp) Candidate_fromProto = Ret cands →
  Exists (λ x, Candidate_FinishReason x = FinishReasonSafety) cands →
  ∃ pre c post,
    cands = pre ++ c :: post
    ∧ Forall (λ x, Candidate_FinishReason x ≠ FinishReasonSafety) pre
    ∧ Candidate_FinishReason c = FinishReasonSafety
    ∧ protoToResponse resp
      = Ret (inr {| BlockedError_Candidate := Some c;
                    BlockedError_PromptFeedback := None |})
    ∧ (∀ iter sc,
         iter_err iter = None →
         Recv (iter_sc iter) = ((Some resp, None), sc) →
         Next iter
         = Ret ((None,
                 Some (error_BlockedError
                         {| BlockedError_Candidate := Some c;
                            BlockedError_PromptFeedback := None |})),
                {| iter_sc := sc;
                   iter_err :=
                     Some (error_BlockedError
                             {| BlockedError_Candidate := Some c;
                                BlockedError_PromptFeedback := None |});
                   iter_merged := iter_merged iter;
                   iter_cs := iter_cs iter |})).
Proof.
  intros Hpf Hcands Hex.
  destruct (first_blocked_split Hex) as (pre & c & post & -> & Hpre & Hc).
  exists pre, c, post.
  assert (protoToResponse resp
          = Ret (inr {| BlockedError_Candidate := Some c;
                        BlockedError_PromptFeedback := None |})) as Hresp.
  { unfold protoToResponse. rewrite Hpf, Hcands. simpl.
    by rewrite firstBlocked_first. }
  split_and!; [done..|].
  intros iter sc He Hrecv. by apply Next_blocked with (resp := resp).
Qed.

(** The call of [Next] that meets the end of the stream on an iterator
    without chat session returns [iterator.Done] and stores [io.EOF]; the
    calls after it return the stored [io.EOF] and do not touch the
    stream. *)
Lemma Next_end_of_stream iter (msg : option pbResponse) sc :
  iter_err iter = None →
  iter_cs iter = None →
  Recv (iter_sc iter) = ((msg, Some io_EOF), sc) →
  ∃ iter',
    Next iter = Ret ((None, Some iterator_Done), iter')
    ∧ iter_sc iter' = sc
    ∧ iter_err iter' = Some io_EOF
    ∧ iter_merged iter' = iter_merged iter
    ∧ iter_cs iter' = None
    ∧ Next iter' = Ret ((None, Some io_EOF), iter').
Proof.
  intros He Hcs Hrecv. unfold Next at 1. rewrite He, Hrecv, Hcs. simpl.
  eexists. split; [reflexivity|]. split_and!; try done.
Qed.

(** The error that a call of [Next] on an active iterator returns is the
    one it stores, except at the end of the stream. *)
Lemma Next_stores_error iter r e iter' :
  iter_err iter = None →
  Next iter = Ret ((r, Some e), iter') →
  iter_err iter' = Some e
  ∨ (e = iterator_Done ∧ iter_err iter' = Some io_EOF).
Proof.
  intros He. unfold Next. rewrite He.
  destruct (Recv (iter_sc iter)) as [[msg err] sc].
  destruct err as [[| |blocked|other]|].
  - at_end_of_stream iter; intros [= <- <- <-]; by right.
  - intros [= <- <- <-]. by left.
  - intros [= <- <- <-]. by left.
  - intros [= <- <- <-]. by left.
  - destruct msg as [resp|]; [|done].
    destruct (protoToResponse resp) as [[gcp|blocked]|]; simpl; [| |done].
    + destruct (joinResponses _ _); simpl; done.
    + intros [= <- <- <-]. by left.
Qed.

(** C9: when the stream is open and its first [Recv] reports the end of
    the stream, [generateContent] returns a nil response and a nil
    error. *)
Theorem C9_generateContent_empty_stream (fuel : nat) (sc sc' : StreamClient)
    (resp : option pbResponse) :
  Recv sc = ((resp, Some io_EOF), sc') →
  generateContent (S fuel) sc None = Some (Ret (None, None)).
Proof.
  intros Hrecv. unfold generateContent. cbn [generateContent_loop].
  edestruct (Next_end_of_stream
               {| iter_sc := sc; iter_err := None;
                  iter_merged := None; iter_cs := None |})
    as (iter' & -> & _ & _ & -> & _); [done | done | exact Hrecv |].
  done.
Qed.

(** A chunk that decodes to a response is merged into the aggregate and
handed to the caller as it was decoded. *)
Lemma Next_chunk iter resp sc gcp merged :
  iter_err iter = None →
  Recv (iter_sc iter) = ((Some resp, None), sc) →
  protoToResponse resp = Ret (inl gcp) →
  joinResponses (iter_merged iter) gcp = Ret merged →
  Next iter
  = Ret ((Some gcp, None),
         {| iter_sc := sc; iter_err := None;
            iter_merged := Some merged; iter_cs := iter_cs iter |}).
Proof.
  intros He Hrecv Hdec Hjoin. unfold Next.
  by rewrite He, Hrecv, Hdec; simpl; rewrite Hjoin.
Qed.

(** On a stream that delivers chunks without blocking signals and then
ends, the loop of [generateContent] returns the chunks merged one after
the other into the aggregate, after one call of [Next] per chunk and one
for the end of the stream. *)
Lemma generateContent_loop_joinChunks (k : nat) msgs chunks iter closed r :
  iter_err iter = None →
  iter_cs iter = None →
  delivers (iter_sc iter) msgs closed →
  Forall2 (λ msg chunk, protoToResponse msg = Ret (inl chunk)) msgs chunks →
  joinChunks (iter_merged iter) chunks = Ret r →
  generateContent_loop (S (length msgs) + k) iter = Some (Ret (r, None)).
Proof.
  revert chunks iter. induction msgs as [|msg msgs IH];
    intros chunks iter He Hcs Hdel Hdec Hjoin.
  - apply Forall2_nil_inv_l in Hdec as ->. injection Hjoin as <-.
    destruct Hdel as [last_msg Hrecv].
    destruct (Next_end_of_stream iter He Hcs Hrecv) as (iter' & HNext & _ & _ & Hm & _).
    cbn [length plus generateContent_loop]. by rewrite HNext, Hm.
  - apply Forall2_cons_inv_l in Hdec as (chunk & chunks' & Hchunk & Hdec & ->).
    destruct Hdel as (sc' & Hrecv & Hdel).
    cbn [joinChunks] in Hjoin.
    destruct (joinResponses (iter_merged iter) chunk) as [merged|] eqn:Hmerged;
      simpl in Hjoin; [|done].
    cbn [length plus generateContent_loop].
    rewrite (Next_chunk iter He Hrecv Hchunk Hmerged).
    by apply (IH chunks').
Qed.

Lemma generateContent_joinChunks (k : nat) sc msgs chunks closed r :
  delivers sc msgs closed →
  Forall2 (λ msg chunk, protoToResponse msg = Ret (inl chunk)) msgs chunks →
  joinChunks None chunks = Ret r →
  generateContent (S (length msgs) + k) sc None = Some (Ret (r, None)).
Proof.
  intros Hdel Hdec Hjoin. unfold generateContent.
  by eapply generateContent_loop_joinChunks.
Qed.

End IteratorProperties.

(** ** The properties on concrete streams *)

(** In the examples citations, safety ratings and prompt feedback are
    strings. *)
Local Notation text := (@text_candidate string string).
Local Notation parts := (@parts_candidate string string).
Local Notation bare := (@bare_candidate string string).
Local Notation chunk := (@chunk_of string string string).
Local Notation cited := (@cited_candidate string string).

(** C1 as stated fails: the second chunk brings index 1, which the final
    aggregate does not have. *)
Lemma C1_counterexample :
  joinChunks None [chunk [text 0 "a"]; chunk [text 0 "b"; text 1 "c"]]
  = Ret (Some (chunk [text 0 "ab"]))
  ∧ (1%Z ∈ seen_indices [chunk [text 0 "a"]; chunk [text 0 "b"; text 1 "c"]])
  ∧ (1%Z ∉ index_set (Candidates (chunk [text 0 "ab"])))
  ∧ index_set (Candidates (chunk [text 0 "ab"]))
    ≠ seen_indices [chunk [text 0 "a"]; chunk [text 0 "b"; text 1 "c"]].
Proof.
  assert (1%Z ∈ seen_indices
                  [chunk [text 0 "a"]; chunk [text 0 "b"; text 1 "c"]]) as Hin.
  { apply (bool_decide_unpack _). by vm_compute. }
  assert (1%Z ∉ index_set (Candidates (chunk [text 0 "ab"]))) as Hnotin.
  { apply (bool_decide_unpack _). by vm_compute. }
  split_and!; [reflexivity | done | done |].
  intros Heq. apply Hnotin. by rewrite Heq.
Qed.

Lemma C1_witness :
  (joinChunks None
     [chunk [bare 0; text 1 "x"]; chunk [bare 0; text 1 "y"]; chunk [bare 0]]
   = Ret (Some (chunk [bare 0; text 1 "xy"]))
   ∧ ∃ agg,
       Some (chunk [bare 0; text 1 "xy"]) = Some agg
       ∧ indices (Candidates agg)
         = indices (Candidates (chunk [bare 0; text 1 "x"]))
       ∧ index_set (Candidates agg)
         = index_set (Candidates (chunk [bare 0; text 1 "x"])))
  ∧ (Forall (λ c : GenerateContentResponse string string string,
               Forall (@has_content _ _) (Candidates c))
       [chunk [text 0 "b"; text 1 "c"]]
     ∧ ∃ agg,
         joinChunks None [chunk [text 0 "a"]; chunk [text 0 "b"; text 1 "c"]]
         = Ret (Some agg)
         ∧ indices (Candidates agg) = indices (Candidates (chunk [text 0 "a"]))
         ∧ index_set (Candidates agg)
           = index_set (Candidates (chunk [text 0 "a"]))).
Proof.
  assert (Forall (λ c : GenerateContentResponse string string string,
                    Forall (@has_content _ _) (Candidates c))
            [chunk [text 0 "b"; text 1 "c"]]) as H.
  { repeat econstructor. }
  split; split.
  - reflexivity.
  - exact (proj1 (C1_indices_of_first_chunk (chunk [bare 0; text 1 "x"])
                    [chunk [bare 0; text 1 "y"]; chunk [bare 0]])
             _ eq_refl).
  - exact H.
  - exact (proj2 (C1_indices_of_first_chunk (chunk [text 0 "a"])
                    [chunk [text 0 "b"; text 1 "c"]]) H).
Defined.



Lemma C6_witness :
  (joinResponses
     (Some {| Candidates := [text 0 "ab"];
              GenerateContentResponse_PromptFeedback := Some "first" |})
     {| Candidates := [text 0 "cd"];
        GenerateContentResponse_PromptFeedback := Some "second" |}
   = Ret {| Candidates := [text 0 "abcd"];
            GenerateContentResponse_PromptFeedback := Some "first" |}
   ∧ GenerateContentResponse_PromptFeedback
       {| Candidates := [text 0 "abcd"];
          GenerateContentResponse_PromptFeedback := Some "first" |}
     = Some "first")
  ∧ (Forall (@has_content string string) [text 0 "cd"]
     ∧ ∃ r, joinResponses
              (Some {| Candidates := [text 0 "ab"];
                       GenerateContentResponse_PromptFeedback := Some "first" |})
              {| Candidates := [text 0 "cd"];
                 GenerateContentResponse_PromptFeedback := Some "second" |}
            = Ret r
            ∧ GenerateContentResponse_PromptFeedback r = Some "first").
Proof.
  assert (Forall (@has_content string string) [text 0 "cd"]) as Hc.
  { repeat econstructor. }
  split; [split; [reflexivity|] | split; [exact Hc|]].
  - exact (proj1 (C6_joinResponses_keeps_PromptFeedback
                    {| Candidates := [text 0 "ab"];
                       GenerateContentResponse_PromptFeedback := Some "first" |}
                    {| Candidates := [text 0 "cd"];
                       GenerateContentResponse_PromptFeedback := Some "second" |})
             _ eq_refl).
  - exact (proj2 (C6_joinResponses_keeps_PromptFeedback
                    {| Candidates := [text 0 "ab"];
                       GenerateContentResponse_PromptFeedback := Some "first" |}
                    {| Candidates := [text 0 "cd"];
                       GenerateContentResponse_PromptFeedback := Some "second" |})
             Hc).
Defined.

(** C3 fails at the end of the stream: the call of [Next] that meets it
    returns [iterator.Done], the call after it returns [io.EOF], another
    error value; the stream is read once. *)
Theorem C3_Next_after_end_of_stream :
  ∃ iter1,
    Next (scripted_iterator [] io_EOF) = Ret ((None, Some iterator_Done), iter1)
    ∧ Next iter1 = Ret ((None, Some io_EOF), iter1)
    ∧ @iterator_Done string string string string ≠ io_EOF
    ∧ script_recvs (iter_sc iter1) = 1.
Proof.
  eexists. split; [reflexivity|]. split_and!; [reflexivity | discriminate | reflexivity].
Qed.

Lemma C4_witness :
  PromptFeedback_fromProto
    (pb_PromptFeedback_
       {| pb_Candidates := [blocked (text 0 "x")];
          pb_PromptFeedback_ := Some "prompt rejected" |})
  = Some "prompt rejected"
  ∧ protoToResponse
      {| pb_Candidates := [blocked (text 0 "x")];
         pb_PromptFeedback_ := Some "prompt rejected" |}
    = Ret (inr {| BlockedError_Candidate := None;
                  BlockedError_PromptFeedback := Some "prompt rejected" |}).
Proof.
  split; [reflexivity|].
  apply (C4_PromptFeedback_blocks_first (collab := scripted)). reflexivity.
Defined.

Lemma C5_witness :
  (PromptFeedback_fromProto
     (pb_PromptFeedback_
        {| pb_Candidates :=
             [text 0 "fine"; blocked (text 1 "bad"); text 2 "fine too";
              blocked (text 3 "bad too")];
           pb_PromptFeedback_ := None |})
   = None
   ∧ mapSlice
       (pb_Candidates
          {| pb_Candidates :=
               [text 0 "fine"; blocked (text 1 "bad"); text 2 "fine too";
                blocked (text 3 "bad too")];
             pb_PromptFeedback_ := @None string |})
       Candidate_fromProto
     = Ret [text 0 "fine"; blocked (text 1 "bad"); text 2 "fine too";
            blocked (text 3 "bad too")]
   ∧ Exists (λ x, Candidate_FinishReason x = FinishReasonSafety)
       [text 0 "fine"; blocked (text 1 "bad"); text 2 "fine too";
        blocked (text 3 "bad too")])
  ∧ ∃ pre c post,
      [text 0 "fine"; blocked (text 1 "bad"); text 2 "fine too";
       blocked (text 3 "bad too")]
      = pre ++ c :: post
      ∧ Forall (λ x, Candidate_FinishReason x ≠ FinishReasonSafety) pre
      ∧ Candidate_FinishReason c = FinishReasonSafety
      ∧ protoToResponse
          {| pb_Candidates :=
               [text 0 "fine"; blocked (text 1 "bad"); text 2 "fine too";
                blocked (text 3 "bad too")];
             pb_PromptFeedback_ := None |}
        = Ret (inr {| BlockedError_Candidate := Some c;
                      BlockedError_PromptFeedback := None |}).
Proof.
  assert (Exists (λ x, Candidate_FinishReason x = FinishReasonSafety)
            [text 0 "fine"; blocked (text 1 "bad"); text 2 "fine too";
             blocked (text 3 "bad too")]) as Hex.
  { apply Exists_cons_tl, Exists_cons_hd. reflexivity. }
  split; [split_and!; [reflexivity | reflexivity | exact Hex] |].
  destruct (C5_first_blocked_candidate (collab := scripted)
              {| pb_Candidates :=
                   [text 0 "fine"; blocked (text 1 "bad"); text 2 "fine too";
                    blocked (text 3 "bad too")];
                 pb_PromptFeedback_ := None |}
              eq_refl eq_refl Hex)
    as (pre & c & post & Hsplit & Hpre & Hc & Hresp & _).
  exists pre, c, post. split_and!; assumption.
Defined.

Lemma C9_witness :
  Recv (iter_sc (scripted_iterator [] io_EOF))
  = ((None, Some io_EOF),
     {| script_messages := []; script_closing := io_EOF; script_recvs := 1 |})
  ∧ generateContent 1 (iter_sc (scripted_iterator [] io_EOF)) None
    = Some (Ret (None, None)).
Proof.
  split; [reflexivity|].
  apply (C9_generateContent_empty_stream (collab := scripted) 0) with (resp := None)
    (sc' := {| script_messages := []; script_closing := io_EOF; script_recvs := 1 |}).
  reflexivity.
Defined.

(** The end-to-end scenario through [generateContent]: three chunks with
the texts of one sentence for candidate 0, then the end of the stream. *)
Example generateContent_the_sky_is_blue :
  generateContent 4
    (iter_sc (scripted_iterator
                [ {| pb_Candidates := [text 0 "The sky"]; pb_PromptFeedback_ := None |};
                  {| pb_Candidates := [text 0 " is"]; pb_PromptFeedback_ := None |};
                  {| pb_Candidates := [text 0 " blue."]; pb_PromptFeedback_ := None |} ]
                io_EOF))
    None
  = Some (Ret (Some (chunk [text 0 "The sky is blue."]), None)).
Proof. reflexivity. Qed.

(** * Further properties *)

(** ** More on [mergeTexts] and [joinParts] *)

(** What [collapse_text_runs] does with a [Text] part in front of a
collapsed list. *)
Local Notation glue t l :=
  (match l with
   | [] => [Text t]
   | Text u :: out => Text (t +:+ u) :: out
   | Blob mime data :: out => Text t :: Blob mime data :: out
   | FileData mime uri :: out => Text t :: FileData mime uri :: out
   end).

Lemma collapse_glue t (l y : list Part) :
  collapse_text_runs (glue t l ++ y) = glue t (collapse_text_runs (l ++ y)).
Proof.
  destruct l as [|[u|mime data|mime uri] out]; try reflexivity.
  change (glue (t +:+ u) (collapse_text_runs (out ++ y))
          = glue t (glue u (collapse_text_runs (out ++ y)))).
  destruct (collapse_text_runs (out ++ y)) as [|[v|mime data|mime uri] o];
    try reflexivity.
  by rewrite string_app_assoc.
Qed.

(** Collapsing a prefix first changes nothing. *)
Lemma collapse_absorb_l (x y : list Part) :
  collapse_text_runs (collapse_text_runs x ++ y) = collapse_text_runs (x ++ y).
Proof.
  induction x as [|p x IH]; [done|].
  destruct p as [t|mime data|mime uri].
  - etrans; [exact (collapse_glue t (collapse_text_runs x) y)|].
    rewrite IH. reflexivity.
  - simpl. by rewrite IH.
  - simpl. by rewrite IH.
Qed.

(** Collapsing a suffix first changes nothing. *)
Lemma collapse_absorb_r (x y : list Part) :
  collapse_text_runs (x ++ collapse_text_runs y) = collapse_text_runs (x ++ y).
Proof.
  induction x as [|p x IH].
  - apply collapse_fixpoint, collapse_no_adjacent.
  - destruct p as [t|mime data|mime uri]; simpl; by rewrite IH.
Qed.

Lemma collapse_length (l : list Part) :
  length (collapse_text_runs l) ≤ length l.
Proof.
  induction l as [|p l IH]; [done|].
  destruct p as [t|mime data|mime uri]; simpl; try lia.
  destruct (collapse_text_runs l) as [|[u| |] out]; simpl in *; lia.
Qed.

Lemma collapse_nil (l : list Part) : collapse_text_runs l = [] → l = [].
Proof.
  destruct l as [|[t|mime data|mime uri] l]; simpl; try done.
  by destruct (collapse_text_runs l) as [|[u| |] out].
Qed.

(** X1: the lists that [mergeTexts] returns unchanged are exactly the lists
without two adjacent [Text] parts. *)
Theorem X1_mergeTexts_fixed_points (l : list Part) :
  mergeTexts l = l ↔ adjacent_texts l = false.
Proof.
  rewrite mergeTexts_collapse. split.
  - intros <-. apply collapse_no_adjacent.
  - apply collapse_fixpoint.
Qed.

(** X2: a list made of [Text] parts only, at least one, is merged into a
single [Text] part that holds [strings.Join] of the texts. *)
Theorem X2_mergeTexts_joins_a_run (t : string) (ts : list string) :
  mergeTexts (map Text (t :: ts)) = [Text (strings_Join (t :: ts) "")].
Proof.
  rewrite mergeTexts_collapse.
  pose proof (@collapse_text_run t ts [] eq_refl) as H.
  by rewrite app_nil_r in H.
Qed.

(** X3: [mergeTexts] never returns more parts than it is given, and it
returns no part only for an input without parts. *)
Theorem X3_mergeTexts_shrinks (l : list Part) :
  length (mergeTexts l) ≤ length l ∧ (mergeTexts l = [] ↔ l = []).
Proof.
  rewrite mergeTexts_collapse. split; [apply collapse_length|].
  split; [apply collapse_nil | by intros ->].
Qed.

(** X4: [joinParts] is associative, and joining parts chunk by chunk gives
[mergeTexts] of all the parts at once. *)
Theorem X4_joinParts_assoc (a b c : list Part) :
  joinParts (joinParts a b) c = joinParts a (joinParts b c)
  ∧ joinParts (joinParts a b) c = mergeTexts (a ++ b ++ c).
Proof.
  unfold joinParts. rewrite !mergeTexts_collapse.
  rewrite collapse_absorb_l, collapse_absorb_r.
  by rewrite <- app_assoc.
Qed.

(** ** More on the merge of candidates *)

Section MergeFurther.

Variables Citation SafetyRating PromptFeedback : Type.

Notation Candidate := (Candidate Citation SafetyRating).
Notation Response := (GenerateContentResponse Citation SafetyRating PromptFeedback).

Implicit Types (d s : Candidate) (dest src out : list Candidate)
  (m : gmap Z Candidate) (i : Z).

Lemma indexToSrcCandidate_None src i :
  indexToSrcCandidate src !! i = None ↔ i ∉ indices src.
Proof.
  rewrite indexToSrcCandidate_lookup, last_None. unfold indices.
  induction src as [|s src IH]; simpl.
  - split; [intros _; apply not_elem_of_nil | done].
  - rewrite filter_cons, not_elem_of_cons.
    destruct (decide (Candidate_Index s = i)) as [Heq|Hne]; split.
    + done.
    + by intros [? _].
    + intros H. split; [done | by apply IH].
    + intros [_ H]. by apply IH.
Qed.

Lemma joinCandidate_Panic d s :
  joinCandidate d s = Panic
  ↔ is_Some (Candidate_Content d) ∧ Candidate_Content s = None.
Proof.
  unfold joinCandidate.
  destruct (Candidate_Content d) as [dc|], (Candidate_Content s) as [sc|];
    simpl; split; try done.
  - by intros [_ ?].
  - by intros [[? ?] _].
  - by intros [[? ?] _].
Qed.

Lemma joinCandidateLists_loop_length m dest out :
  joinCandidateLists_loop m dest = Ret out → length out = length dest.
Proof.
  intros H%joinCandidateLists_loop_indices.
  unfold indices in H. apply (f_equal length) in H.
  by rewrite !length_map in H.
Qed.

(** X5: merging citation metadata is associative and nil is neutral on
both sides. *)
Theorem X5_joinCitationMetadata_monoid :
  (∀ a b c : option (CitationMetadata Citation),
     joinCitationMetadata (joinCitationMetadata a b) c
     = joinCitationMetadata a (joinCitationMetadata b c))
  ∧ (∀ a : option (CitationMetadata Citation), joinCitationMetadata None a = a)
  ∧ (∀ a : option (CitationMetadata Citation), joinCitationMetadata a None = a).
Proof.
  split_and!.
  - intros [a|] [b|] [c|]; simpl; try done. by rewrite <- app_assoc.
  - done.
  - by intros [a|].
Qed.

(** X6: [joinCandidateLists] panics exactly when some candidate of the
destination that has content meets a source candidate of its index (the
last one of the source with that index) that has none. *)
Theorem X6_joinCandidateLists_panics_iff dest src :
  joinCandidateLists dest src = Panic
  ↔ Exists (λ d, ∃ s,
              last (filter (λ s, Candidate_Index s = Candidate_Index d) src) = Some s
              ∧ is_Some (Candidate_Content d)
              ∧ Candidate_Content s = None) dest.
Proof.
  unfold joinCandidateLists.
  induction dest as [|d dest IH].
  - split; [done | by intros ?%Exists_nil].
  - cbn [joinCandidateLists_loop]. rewrite Exists_cons, <- IH.
    rewrite <- indexToSrcCandidate_lookup.
    destruct (indexToSrcCandidate src !! Candidate_Index d) as [s|] eqn:Hs.
    + destruct (joinCandidate d s) as [d'|] eqn:Hd; simpl.
      * destruct (joinCandidateLists_loop _ dest) as [rest|]; simpl.
        -- split; [done|]. intros [(s' & [= <-] & Hp)|?]; [|done].
           apply joinCandidate_Panic in Hp. congruence.
        -- split; [by right | done].
      * split; [|done]. intros _. left. exists s.
        split; [done|]. by apply joinCandidate_Panic.
    + simpl. destruct (joinCandidateLists_loop _ dest) as [rest|]; simpl.
      * split; [done|]. by intros [(s' & ? & _)|?].
      * split; [by right | done].
Qed.

(** X7: a merge keeps the length, the order and the indices of the
destination, and leaves a candidate whose index does not occur in the
source as it is. *)
Theorem X7_joinCandidateLists_frame dest src out :
  joinCandidateLists dest src = Ret out →
  length out = length dest
  ∧ indices out = indices dest
  ∧ ∀ (n : nat) d,
      dest !! n = Some d →
      Candidate_Index d ∉ indices src →
      out !! n = Some d.
Proof.
  intros Hout. split_and!.
  - by eapply joinCandidateLists_loop_length.
  - by eapply joinCandidateLists_indices.
  - intros n d Hn Hnotin.
    destruct (joinCandidateLists_loop_lookup _ _ _ Hout Hn) as (d' & Hd' & Hjoin).
    apply indexToSrcCandidate_None in Hnotin. rewrite Hnotin in Hjoin.
    by subst d'.
Qed.

(** X8: the finish reason and the safety ratings of a merged candidate are
those of the source candidate of its index, the last one when the source
has several with that index; and in a destination whose candidates have
pairwise distinct indices, its citations are its own followed by the
source's. *)
Theorem X8_joinCandidateLists_last_wins dest src out (n : nat) d s :
  joinCandidateLists dest src = Ret out →
  dest !! n = Some d →
  last (filter (λ s, Candidate_Index s = Candidate_Index d) src) = Some s →
  ∃ d', out !! n = Some d'
        ∧ Candidate_FinishReason d' = Candidate_FinishReason s
        ∧ Candidate_SafetyRatings d' = Candidate_SafetyRatings s
        ∧ (NoDup (indices dest) →
           citations_of (Candidate_CitationMetadata d')
           = citations_of (Candidate_CitationMetadata d)
             ++ citations_of (Candidate_CitationMetadata s)).
Proof.
  intros Hout Hn Hs. rewrite <- indexToSrcCandidate_lookup in Hs.
  destruct (joinCandidateLists_loop_lookup _ _ _ Hout Hn) as (d' & Hd' & Hjoin).
  rewrite Hs in Hjoin.
  apply joinCandidate_Ret in Hjoin as (_ & _ & Hfr & Hsr & Hcm).
  exists d'. split_and!; [done..|]. intros _.
  rewrite Hcm.
  destruct (Candidate_CitationMetadata d) as [dm|],
           (Candidate_CitationMetadata s) as [sm|]; simpl;
    by rewrite ?app_nil_r.
Qed.

(** X9: merging a source without candidates returns the destination as it
is, and merging into a destination without candidates returns no
candidate, whatever the source holds. *)
Theorem X9_joinCandidateLists_empty :
  (∀ dest, joinCandidateLists dest [] = Ret dest)
  ∧ (∀ src, joinCandidateLists [] src = Ret [])
  ∧ (∀ (d : Response) (pf : option PromptFeedback),
       joinResponses (Some d)
         {| Candidates := []; GenerateContentResponse_PromptFeedback := pf |}
       = Ret d).
Proof.
  assert (∀ dest, joinCandidateLists dest [] = Ret dest) as Hempty.
  { intros dest. unfold joinCandidateLists, indexToSrcCandidate. simpl.
    induction dest as [|d dest IH]; [done|].
    cbn [joinCandidateLists_loop]. rewrite lookup_empty, IH. done. }
  split_and!; [done | done |].
  intros [cands dpf] pf. simpl. by rewrite Hempty.
Qed.

End MergeFurther.

(** ** A candidate along the chunks of a stream *)

Section StreamsMerged.

Variables Citation SafetyRating PromptFeedback : Type.

Notation Candidate := (Candidate Citation SafetyRating).
Notation Response := (GenerateContentResponse Citation SafetyRating PromptFeedback).

Implicit Types (d s : Candidate) (first chunk agg : Response)
  (rest : list Response) (i : Z).

Lemma citations_of_join (a b : option (CitationMetadata Citation)) :
  citations_of (joinCitationMetadata a b) = citations_of a ++ citations_of b.
Proof. destruct a as [a|], b as [b|]; simpl; by rewrite ?app_nil_r. Qed.

Lemma lastSrcCandidate_cons i chunk rest :
  lastSrcCandidate i (chunk :: rest)
  = match lastSrcCandidate i rest with
    | Some s => Some s
    | None => srcCandidate i chunk
    end.
Proof.
  unfold lastSrcCandidate. cbn [omap list_omap].
  destruct (srcCandidate i chunk) as [s|]; [|by destruct (last _)].
  rewrite last_cons. by destruct (last _).
Qed.

Lemma lastSrcCandidate_None i rest :
  lastSrcCandidate i rest = None →
  concat (map (parts_from i) rest) = []
  ∧ concat (map (citations_from i) rest) = [].
Proof.
  induction rest as [|chunk rest IH]; [done|].
  rewrite lastSrcCandidate_cons.
  destruct (lastSrcCandidate i rest); [done|].
  intros Hnone. destruct IH as [IHp IHc]; [done|].
  unfold parts_from, citations_from in *. simpl.
  by rewrite Hnone, IHp, IHc.
Qed.

Lemma from_srcCandidate_Some i chunk s :
  srcCandidate i chunk = Some s →
  parts_from i chunk = parts_of (Candidate_Content s)
  ∧ citations_from i chunk = citations_of (Candidate_CitationMetadata s).
Proof. unfold parts_from, citations_from. by intros ->. Qed.

Lemma from_srcCandidate_None i chunk :
  srcCandidate i chunk = None →
  parts_from i chunk = [] ∧ citations_from i chunk = [].
Proof. unfold parts_from, citations_from. by intros ->. Qed.

(** The first merge of a stream that goes on, seen from one position of
the aggregate. *)
Lemma joinChunks_step first chunk rest r (n : nat) d :
  joinChunks (Some first) (chunk :: rest) = Ret r →
  Candidates first !! n = Some d →
  ∃ merged d1,
    joinChunks (Some merged) rest = Ret r
    ∧ Candidates merged !! n = Some d1
    ∧ match srcCandidate (Candidate_Index d) chunk with
      | Some s => joinCandidate d s = Ret d1
      | None => d1 = d
      end.
Proof.
  intros Hr Hn. cbn [joinChunks joinResponses] in Hr.
  destruct (joinCandidateLists (Candidates first) (Candidates chunk))
    as [out|] eqn:Hout; simpl in Hr; [|done].
  destruct (joinCandidateLists_loop_lookup _ _ _ Hout Hn) as (d1 & Hd1 & Hjoin).
  eexists _, d1. split_and!; [exact Hr | exact Hd1 | exact Hjoin].
Qed.

(** X10: along a stream, a candidate of the first chunk that has content
keeps its role, and its parts become its own parts followed by the parts
that the later chunks bring for its index, in chunk order, with the runs of
adjacent texts collapsed; when no later chunk has its index, its parts stay
as the first chunk gave them. *)
Theorem X10_joinChunks_parts first rest agg (n : nat) d dc :
  joinChunks None (first :: rest) = Ret (Some agg) →
  Candidates first !! n = Some d →
  Candidate_Content d = Some dc →
  ∃ d', Candidates agg !! n = Some d'
        ∧ Candidate_Index d' = Candidate_Index d
        ∧ Candidate_Content d'
          = Some {| Content_Role := Content_Role dc;
                    Content_Parts :=
                      match lastSrcCandidate (Candidate_Index d) rest with
                      | Some _ =>
                          collapse_text_runs
                            (Content_Parts dc
                             ++ concat (map (parts_from (Candidate_Index d)) rest))
                      | None => Content_Parts dc
                      end |}.
Proof.
  cbn [joinChunks joinResponses exec_bind].
  revert first d dc. induction rest as [|chunk rest IH]; intros first d dc Hagg Hn Hdc.
  - injection Hagg as <-. exists d. split_and!; [done..|].
    rewrite Hdc. by destruct dc.
  - destruct (@joinChunks_step first chunk rest _ n d Hagg Hn) as (merged & d1 & Hrest & Hd1 & Hjoin).
    rewrite lastSrcCandidate_cons. cbn [map concat].
    destruct (srcCandidate (Candidate_Index d) chunk) as [s|] eqn:Hs.
    + rewrite (proj1 (from_srcCandidate_Some _ _ Hs)).
      apply joinCandidate_Ret in Hjoin as (Hidx & Hcontent & _).
      rewrite Hdc in Hcontent. simpl in Hcontent.
      destruct (Candidate_Content s) as [sc|] eqn:Hsc; [|done].
      injection Hcontent as Hcontent. symmetry in Hcontent.
      destruct (IH _ _ _ Hrest Hd1 Hcontent) as (d' & Hd' & Hidx' & Hc').
      exists d'. split_and!; [done | congruence |].
      rewrite Hc', Hidx. simpl. f_equal. f_equal.
      unfold joinParts. rewrite mergeTexts_collapse.
      destruct (lastSrcCandidate (Candidate_Index d) rest) eqn:Hlast.
      * by rewrite collapse_absorb_l, <- app_assoc.
      * apply lastSrcCandidate_None in Hlast as [-> _]. by rewrite app_nil_r.
    + rewrite (proj1 (from_srcCandidate_None _ _ Hs)). subst d1.
      destruct (IH _ _ _ Hrest Hd1 Hdc) as (d' & Hd' & Hidx' & Hc').
      exists d'. split_and!; [done..|].
      rewrite Hc'. by destruct (lastSrcCandidate _ rest).
Qed.

(** X11: along a stream whose first chunk has candidates of pairwise
distinct indices, the citations of a candidate of the first chunk become
its own citations followed by the citations that the later chunks bring for
its index, in chunk order; none is dropped, repeated or reordered. *)
Theorem X11_joinChunks_citations first rest agg (n : nat) d :
  NoDup (indices (Candidates first)) →
  joinChunks None (first :: rest) = Ret (Some agg) →
  Candidates first !! n = Some d →
  ∃ d', Candidates agg !! n = Some d'
        ∧ citations_of (Candidate_CitationMetadata d')
          = citations_of (Candidate_CitationMetadata d)
            ++ concat (map (citations_from (Candidate_Index d)) rest).
Proof.
  intros _. cbn [joinChunks joinResponses exec_bind].
  revert first d. induction rest as [|chunk rest IH]; intros first d Hagg Hn.
  - injection Hagg as <-. exists d. by rewrite app_nil_r.
  - destruct (@joinChunks_step first chunk rest _ n d Hagg Hn) as (merged & d1 & Hrest & Hd1 & Hjoin).
    destruct (IH _ _ Hrest Hd1) as (d' & Hd' & Hc').
    exists d'. split; [done|]. rewrite Hc'. cbn [map concat].
    destruct (srcCandidate (Candidate_Index d) chunk) as [s|] eqn:Hs.
    + rewrite (proj2 (from_srcCandidate_Some _ _ Hs)).
      apply joinCandidate_Ret in Hjoin as (Hidx & _ & _ & _ & Hcm).
      by rewrite Hcm, citations_of_join, Hidx, <- app_assoc.
    + rewrite (proj2 (from_srcCandidate_None _ _ Hs)). by subst d1.
Qed.

(** X12: along a stream, the finish reason and the safety ratings of a
candidate of the first chunk are those of the source candidate of the last
chunk that has its index; they stay its own when no later chunk has it. *)
Theorem X12_joinChunks_last_wins first rest agg (n : nat) d :
  joinChunks None (first :: rest) = Ret (Some agg) →
  Candidates first !! n = Some d →
  ∃ d', Candidates agg !! n = Some d'
        ∧ Candidate_FinishReason d'
          = Candidate_FinishReason
              (default d (lastSrcCandidate (Candidate_Index d) rest))
        ∧ Candidate_SafetyRatings d'
          = Candidate_SafetyRatings
              (default d (lastSrcCandidate (Candidate_Index d) rest)).
Proof.
  cbn [joinChunks joinResponses exec_bind].
  revert first d. induction rest as [|chunk rest IH]; intros first d Hagg Hn.
  - injection Hagg as <-. by exists d.
  - destruct (@joinChunks_step first chunk rest _ n d Hagg Hn) as (merged & d1 & Hrest & Hd1 & Hjoin).
    destruct (IH _ _ Hrest Hd1) as (d' & Hd' & Hfr & Hsr).
    exists d'. split; [done|]. rewrite Hfr, Hsr, lastSrcCandidate_cons.
    destruct (srcCandidate (Candidate_Index d) chunk) as [s|] eqn:Hs.
    + apply joinCandidate_Ret in Hjoin as (Hidx & _ & Hfr1 & Hsr1 & _).
      rewrite Hidx.
      by destruct (lastSrcCandidate (Candidate_Index d) rest).
    + subst d1. by destruct (lastSrcCandidate (Candidate_Index d) rest).
Qed.

End StreamsMerged.

(** ** More on decoding and the iterator *)

Section IteratorFurther.

Context {Citation SafetyRating PromptFeedback : Type}.
Context {pb_PromptFeedback pb_Candidate OtherError : Type}.
Context {StreamClient ChatSession : Type}.
Context {collab : Collaborators Citation SafetyRating PromptFeedback
                    pb_PromptFeedback pb_Candidate OtherError
                    StreamClient ChatSession}.

Notation Candidate := (Candidate Citation SafetyRating).
Notation Response := (GenerateContentResponse Citation SafetyRating PromptFeedback).
Notation Iterator :=
  (GenerateContentResponseIterator Citation SafetyRating PromptFeedback
     OtherError StreamClient ChatSession).
Notation pbResponse := (pb_GenerateContentResponse pb_PromptFeedback pb_Candidate).
Notation error := (error Citation SafetyRating PromptFeedback OtherError).

Implicit Types (iter : Iterator) (resp : pbResponse) (e : error)
  (c d s : Candidate) (cands dest src out : list Candidate) (r gcp : Response).

Lemma firstBlocked_None_inv cands :
  firstBlocked cands = None →
  Forall (λ x, Candidate_FinishReason x ≠ FinishReasonSafety) cands.
Proof.
  induction cands as [|x cands IH]; simpl; [done|].
  destruct (decide (Candidate_FinishReason x = FinishReasonSafety)); [done|].
  intros H. constructor; [done | by apply IH].
Qed.

Lemma firstBlocked_Some_inv cands c :
  firstBlocked cands = Some c →
  c ∈ cands ∧ Candidate_FinishReason c = FinishReasonSafety.
Proof.
  induction cands as [|x cands IH]; simpl; [done|].
  destruct (decide (Candidate_FinishReason x = FinishReasonSafety)) as [Hx|Hx].
  - intros [= <-]. split; [apply list_elem_of_here | done].
  - intros [Hin Hc]%IH. split; [by apply list_elem_of_further | done].
Qed.

Lemma protoToResponse_unblocked resp r :
  protoToResponse resp = Ret (inl r) → unblocked r.
Proof.
  unfold protoToResponse.
  destruct (PromptFeedback_fromProto _) as [pf|]; [done|].
  destruct (mapSlice _ _) as [cands|]; simpl; [|done].
  destruct (firstBlocked cands) as [c|] eqn:Hfirst; [done|].
  intros [= <-]. split; [done|]. by apply firstBlocked_None_inv.
Qed.

(** X13: a response that [protoToResponse] returns holds the decoded
candidates in their order, no prompt feedback and no candidate stopped by
the safety filter. *)
Theorem X13_protoToResponse_response resp r :
  protoToResponse resp = Ret (inl r) →
  PromptFeedback_fromProto (pb_PromptFeedback_ resp) = None
  ∧ mapSlice (pb_Candidates resp) Candidate_fromProto = Ret (Candidates r)
  ∧ GenerateContentResponse_PromptFeedback r = None
  ∧ Forall (λ c, Candidate_FinishReason c ≠ FinishReasonSafety) (Candidates r).
Proof.
  unfold protoToResponse.
  destruct (PromptFeedback_fromProto _) as [pf|]; [done|].
  destruct (mapSlice _ _) as [cands|]; simpl; [|done].
  destruct (firstBlocked cands) as [c|] eqn:Hfirst; [done|].
  intros [= <-]. simpl. split_and!; [done..|].
  by apply firstBlocked_None_inv.
Qed.

(** X14: a [BlockedError] that [protoToResponse] returns carries either
the prompt feedback of the chunk and no candidate, or a decoded candidate
stopped by the safety filter and no prompt feedback: never both, never
neither. *)
Theorem X14_protoToResponse_blocked resp
    (b : BlockedError Citation SafetyRating PromptFeedback) :
  protoToResponse resp = Ret (inr b) →
  (∃ pf, PromptFeedback_fromProto (pb_PromptFeedback_ resp) = Some pf
         ∧ b = {| BlockedError_Candidate := None;
                  BlockedError_PromptFeedback := Some pf |})
  ∨ (∃ cands c,
       PromptFeedback_fromProto (pb_PromptFeedback_ resp) = None
       ∧ mapSlice (pb_Candidates resp) Candidate_fromProto = Ret cands
       ∧ c ∈ cands
       ∧ Candidate_FinishReason c = FinishReasonSafety
       ∧ b = {| BlockedError_Candidate := Some c;
                BlockedError_PromptFeedback := None |}).
Proof.
  unfold protoToResponse.
  destruct (PromptFeedback_fromProto _) as [pf|].
  - intros [= <-]. left. by exists pf.
  - destruct (mapSlice _ _) as [cands|]; simpl; [|done].
    destruct (firstBlocked cands) as [c|] eqn:Hfirst; [|done].
    intros [= <-]. right. exists cands, c.
    apply firstBlocked_Some_inv in Hfirst as [? ?]. done.
Qed.

(** A failure of the transport other than the end of the stream. *)
Lemma Next_transport_error iter (msg : option pbResponse) sc e :
  iter_err iter = None →
  Recv (iter_sc iter) = ((msg, Some e), sc) →
  e ≠ io_EOF →
  Next iter
  = Ret ((None, Some e),
         {| iter_sc := sc; iter_err := Some e;
            iter_merged := iter_merged iter; iter_cs := iter_cs iter |}).
Proof.
  intros He Hrecv Hne. unfold Next. rewrite He, Hrecv. by destruct e.
Qed.

(** X15: once a call of [Next] on an active iterator has returned an error
other than [iterator.Done], be it from the transport or a blocked error,
the call returned no response, the iterator holds that error and the
aggregate it had, and every later call returns the same error and leaves
the iterator, its stream included, as it is. *)
Theorem X15_Next_failure_memoized iter (r : option Response) e iter' :
  iter_err iter = None →
  Next iter = Ret ((r, Some e), iter') →
  e ≠ iterator_Done →
  r = None
  ∧ iter_err iter' = Some e
  ∧ iter_merged iter' = iter_merged iter
  ∧ Next iter' = Ret ((None, Some e), iter').
Proof.
  intros He HNext Hne.
  assert (r = None ∧ iter_err iter' = Some e
          ∧ iter_merged iter' = iter_merged iter) as (-> & He' & Hm).
  { revert HNext. unfold Next. rewrite He.
    destruct (Recv (iter_sc iter)) as [[msg err] sc].
    destruct err as [[| |blocked|other]|].
    - at_end_of_stream iter; by intros [= <- <-].
    - by intros [= <- <- <-].
    - by intros [= <- <- <-].
    - by intros [= <- <- <-].
    - destruct msg as [resp|]; [|done].
      destruct (protoToResponse resp) as [[gcp|blocked]|]; simpl; [| |done].
      + destruct (joinResponses _ _); simpl; done.
      + by intros [= <- <- <-]. }
  split_and!; [done..|]. by apply Next_terminal.
Qed.

(** X16: the chat session of an iterator changes only in the call of
[Next] that meets the end of the stream.  There, when the iterator has a
session and an aggregate, [addToHistory] is handed the candidates of the
aggregate: if it returns, [Next] returns [iterator.Done] and holds the
session that it returned, and the call after that one leaves the iterator
alone, so the history is told once; if it panics, so does [Next].  Without
a session or without an aggregate, [addToHistory] is not called. *)
Theorem X16_Next_history_once iter :
  (∀ (r : option Response) (e : option error) iter',
     Next iter = Ret ((r, e), iter') →
     e ≠ Some iterator_Done →
     iter_cs iter' = iter_cs iter)
  ∧ (∀ (msg : option pbResponse) sc,
       iter_err iter = None →
       Recv (iter_sc iter) = ((msg, Some io_EOF), sc) →
       match iter_cs iter, iter_merged iter with
       | Some cs, Some merged =>
           match addToHistory cs (Candidates merged) with
           | Ret added =>
               ∃ iter',
                 Next iter = Ret ((None, Some iterator_Done), iter')
                 ∧ iter_cs iter' = Some (fst added)
                 ∧ Next iter' = Ret ((None, Some io_EOF), iter')
           | Panic => Next iter = Panic
           end
       | _, _ =>
           ∃ iter',
             Next iter = Ret ((None, Some iterator_Done), iter')
             ∧ iter_cs iter' = iter_cs iter
             ∧ iter_merged iter' = iter_merged iter
             ∧ Next iter' = Ret ((None, Some io_EOF), iter')
       end).
Proof.
  split.
  - intros r e iter'. unfold Next.
    destruct (iter_err iter) as [e0|]; [by intros [= <- <- <-]|].
    destruct (Recv (iter_sc iter)) as [[msg err] sc].
    destruct err as [[| |blocked|other]|].
    + at_end_of_stream iter; by intros [= <- <- <-].
    + by intros [= <- <- <-].
    + by intros [= <- <- <-].
    + by intros [= <- <- <-].
    + destruct msg as [resp|]; [|done].
      destruct (protoToResponse resp) as [[gcp|blocked]|]; simpl; [| |done].
      * destruct (joinResponses _ _); simpl; [|done]. by intros [= <- <- <-].
      * by intros [= <- <- <-].
  - intros msg sc He Hrecv.
    destruct (iter_cs iter) as [cs|] eqn:Hcs;
      destruct (iter_merged iter) as [merged|] eqn:Hm.
    + destruct (addToHistory cs (Candidates merged)) as [added|] eqn:Hadd.
      * unfold Next at 1. rewrite He, Hrecv, Hcs, Hm. simpl. rewrite Hadd. simpl.
        eexists. split_and!; [reflexivity | reflexivity | by apply Next_terminal].
      * unfold Next. rewrite He, Hrecv, Hcs, Hm. simpl. by rewrite Hadd.
    + unfold Next at 1. rewrite He, Hrecv, Hcs, Hm. simpl.
      eexists. split_and!; [reflexivity | done | done | by apply Next_terminal].
    + unfold Next at 1. rewrite He, Hrecv, Hcs, Hm. simpl.
      eexists. split_and!; [reflexivity | done | done | by apply Next_terminal].
    + unfold Next at 1. rewrite He, Hrecv, Hcs, Hm. simpl.
      eexists. split_and!; [reflexivity | done | done | by apply Next_terminal].
Qed.

(** X17: a call of [Next] that returns hands out either a response and a
nil error, or no response and an error: never both, never neither. *)
Theorem X17_Next_response_xor_error iter (r : option Response)
    (e : option error) iter' :
  Next iter = Ret ((r, e), iter') →
  (is_Some r ∧ e = None) ∨ (r = None ∧ is_Some e).
Proof.
  unfold Next.
  destruct (iter_err iter) as [e0|]; [intros [= <- <- <-]; right; eauto|].
  destruct (Recv (iter_sc iter)) as [[msg err] sc].
  destruct err as [[| |blocked|other]|].
  - at_end_of_stream iter; intros [= <- <- <-]; right; eauto.
  - intros [= <- <- <-]; right; eauto.
  - intros [= <- <- <-]; right; eauto.
  - intros [= <- <- <-]; right; eauto.
  - destruct msg as [resp|]; [|done].
    destruct (protoToResponse resp) as [[gcp|blocked]|]; simpl; [| |done].
    + destruct (joinResponses _ _); simpl; [|done].
      intros [= <- <- <-]; left; eauto.
    + intros [= <- <- <-]; right; eauto.
Qed.

Lemma joinCandidateLists_unblocked dest src out :
  Forall (λ c, Candidate_FinishReason c ≠ FinishReasonSafety) dest →
  Forall (λ c, Candidate_FinishReason c ≠ FinishReasonSafety) src →
  joinCandidateLists dest src = Ret out →
  Forall (λ c, Candidate_FinishReason c ≠ FinishReasonSafety) out.
Proof.
  intros Hdest Hsrc. unfold joinCandidateLists. revert out.
  induction Hdest as [|d dest Hd Hdest IH]; intros out Hout.
  - injection Hout as <-. constructor.
  - cbn [joinCandidateLists_loop] in Hout.
    destruct (indexToSrcCandidate src !! Candidate_Index d) as [s|] eqn:Hs.
    + destruct (joinCandidate d s) as [d'|] eqn:Hd'; simpl in Hout; [|done].
      destruct (joinCandidateLists_loop _ dest) as [rest|]; simpl in Hout; [|done].
      injection Hout as <-. constructor; [|by apply IH].
      apply joinCandidate_Ret in Hd' as (_ & _ & -> & _).
      apply indexToSrcCandidate_elem in Hs as [Hin _].
      by eapply Forall_forall in Hsrc.
    + simpl in Hout.
      destruct (joinCandidateLists_loop _ dest) as [rest|]; simpl in Hout; [|done].
      injection Hout as <-. constructor; [done | by apply IH].
Qed.

Lemma joinResponses_unblocked (merged : option Response) gcp r :
  (∀ m, merged = Some m → unblocked m) →
  unblocked gcp →
  joinResponses merged gcp = Ret r →
  unblocked r.
Proof.
  intros Hm Hgcp. destruct merged as [m|]; simpl.
  - destruct (Hm m eq_refl) as [Hpf Hcands]. destruct Hgcp as [_ Hsrc].
    destruct (joinCandidateLists _ _) as [out|] eqn:Hout; simpl; [|done].
    intros [= <-]. split; [done|]. simpl.
    exact (joinCandidateLists_unblocked Hcands Hsrc Hout).
  - by intros [= <-].
Qed.

(** A call of [Next] on an iterator without chat session keeps the
aggregate free of prompt feedback and of candidates stopped by the safety
filter. *)
Lemma Next_unblocked iter (r : option Response) (e : option error) iter' :
  iter_cs iter = None →
  (∀ m, iter_merged iter = Some m → unblocked m) →
  Next iter = Ret ((r, e), iter') →
  iter_cs iter' = None
  ∧ ∀ m, iter_merged iter' = Some m → unblocked m.
Proof.
  intros Hcs Hinv. unfold Next.
  destruct (iter_err iter) as [e0|]; [by intros [= <- <- <-]|].
  destruct (Recv (iter_sc iter)) as [[msg err] sc].
  destruct err as [[| |blocked|other]|].
  - rewrite Hcs. simpl. by intros [= <- <- <-].
  - by intros [= <- <- <-].
  - by intros [= <- <- <-].
  - by intros [= <- <- <-].
  - destruct msg as [resp|]; [|done].
    destruct (protoToResponse resp) as [[gcp|blocked]|] eqn:Hdec; simpl; [| |done].
    + destruct (joinResponses _ _) as [merged|] eqn:Hjoin; simpl; [|done].
      intros [= <- <- <-]. split; [done|]. intros m [= <-].
      eapply joinResponses_unblocked; [exact Hinv | | exact Hjoin].
      apply protoToResponse_unblocked in Hdec. exact Hdec.
    + by intros [= <- <- <-].
Qed.

Lemma generateContent_loop_unblocked (fuel : nat) iter r (e : option error) :
  iter_cs iter = None →
  (∀ m, iter_merged iter = Some m → unblocked m) →
  generateContent_loop fuel iter = Some (Ret (Some r, e)) →
  e = None ∧ unblocked r.
Proof.
  revert iter. induction fuel as [|fuel IH]; intros iter Hcs Hinv; [done|].
  cbn [generateContent_loop].
  destruct (Next iter) as [[[r0 err] iter']|] eqn:HNext; [|done].
  destruct (Next_unblocked _ Hcs Hinv HNext) as [Hcs' Hinv'].
  destruct err as [[| |blocked|other]|]; try done.
  - intros [= Hr <-]. split; [done|]. by apply Hinv'.
  - by apply IH.
Qed.

(** X18: a response that [generateContent] returns comes with a nil error
and holds no prompt feedback and no candidate stopped by the safety
filter. *)
Theorem X18_generateContent_response_unblocked (fuel : nat) (sc : StreamClient)
    (err : option error) r (e : option error) :
  generateContent fuel sc err = Some (Ret (Some r, e)) →
  e = None
  ∧ GenerateContentResponse_PromptFeedback r = None
  ∧ Forall (λ c, Candidate_FinishReason c ≠ FinishReasonSafety) (Candidates r).
Proof.
  unfold generateContent. intros H.
  by apply generateContent_loop_unblocked in H.
Qed.

(** X19: when the stream cannot be opened, every call of [Next] on the
iterator of [GenerateContentStream] returns the error of the opening and
leaves the iterator as it is, and [generateContent] returns that error and
no response. *)
Theorem X19_open_error (sc : StreamClient) e :
  e ≠ iterator_Done →
  Next (GenerateContentStream sc (Some e))
  = Ret ((None, Some e), GenerateContentStream sc (Some e))
  ∧ ∀ fuel : nat, generateContent (S fuel) sc (Some e) = Some (Ret (None, Some e)).
Proof.
  intros Hne. split; [by apply Next_terminal|].
  intros fuel. unfold generateContent. cbn [generateContent_loop].
  erewrite Next_terminal by reflexivity. by destruct e.
Qed.

(** X20: when the stream fails after some chunks with an error that is
neither the end of the stream nor [iterator.Done], [generateContent]
returns that error and no response: what was merged so far is dropped. *)
Theorem X20_generateContent_transport_error (k : nat) (sc closed : StreamClient)
    (msgs : list pbResponse) (chunks : list Response) e
    (merged : option Response) :
  delivers_until sc msgs e closed →
  e ≠ io_EOF → e ≠ iterator_Done →
  Forall2 (λ msg chunk, protoToResponse msg = Ret (inl chunk)) msgs chunks →
  joinChunks None chunks = Ret merged →
  generateContent (S (length msgs) + k) sc None = Some (Ret (None, Some e)).
Proof.
  intros Hdel Heof Hdone Hdec Hjoin. unfold generateContent.
  assert (∀ iter,
            iter_err iter = None →
            delivers_until (iter_sc iter) msgs e closed →
            joinChunks (iter_merged iter) chunks = Ret merged →
            generateContent_loop (S (length msgs) + k) iter
            = Some (Ret (None, Some e))) as Hloop.
  { clear Hdel Hjoin sc. revert chunks Hdec.
    induction msgs as [|msg msgs IH]; intros chunks Hdec iter He Hdel Hjoin.
    - destruct Hdel as [last_msg Hrecv].
      cbn [length plus generateContent_loop].
      rewrite (Next_transport_error iter He Hrecv Heof). by destruct e.
    - apply Forall2_cons_inv_l in Hdec as (chunk & chunks' & Hchunk & Hdec & ->).
      destruct Hdel as (sc' & Hrecv & Hdel).
      cbn [joinChunks] in Hjoin.
      destruct (joinResponses (iter_merged iter) chunk) as [m|] eqn:Hm;
        simpl in Hjoin; [|done].
      cbn [length plus generateContent_loop].
      rewrite (Next_chunk iter He Hrecv Hchunk Hm).
      by apply (IH chunks'). }
  by apply Hloop.
Qed.

(** X21: when a chunk of the stream is blocked, by its prompt feedback or
by a candidate, [generateContent] returns the blocked error and no
response, however many chunks were merged before. *)
Theorem X21_generateContent_blocked (k : nat) (sc after : StreamClient)
    (msgs : list pbResponse) (chunks : list Response) (msg : pbResponse)
    (b : BlockedError Citation SafetyRating PromptFeedback)
    (merged : option Response) :
  delivers_then sc msgs msg after →
  Forall2 (λ msg chunk, protoToResponse msg = Ret (inl chunk)) msgs chunks →
  joinChunks None chunks = Ret merged →
  protoToResponse msg = Ret (inr b) →
  generateContent (S (length msgs) + k) sc None
  = Some (Ret (None, Some (error_BlockedError b))).
Proof.
  intros Hdel Hdec Hjoin Hb. unfold generateContent.
  assert (∀ iter,
            iter_err iter = None →
            delivers_then (iter_sc iter) msgs msg after →
            joinChunks (iter_merged iter) chunks = Ret merged →
            generateContent_loop (S (length msgs) + k) iter
            = Some (Ret (None, Some (error_BlockedError b)))) as Hloop.
  { clear Hdel Hjoin sc. revert chunks Hdec.
    induction msgs as [|msg0 msgs IH]; intros chunks Hdec iter He Hdel Hjoin.
    - cbn [length plus generateContent_loop].
      by rewrite (Next_blocked iter He Hdel Hb).
    - apply Forall2_cons_inv_l in Hdec as (chunk & chunks' & Hchunk & Hdec & ->).
      destruct Hdel as (sc' & Hrecv & Hdel).
      cbn [joinChunks] in Hjoin.
      destruct (joinResponses (iter_merged iter) chunk) as [m|] eqn:Hm;
        simpl in Hjoin; [|done].
      cbn [length plus generateContent_loop].
      rewrite (Next_chunk iter He Hrecv Hchunk Hm).
      by apply (IH chunks'). }
  by apply Hloop.
Qed.

(** X22: on a stream that delivers chunks without blocking signals and
then ends, the first chunk having candidates of pairwise distinct indices,
[generateContent] returns a nil error and the aggregate that merging the
decoded chunks one after the other gives, the first chunk being taken as
it is; on a stream that ends at once it returns a nil response and a nil
error. *)
Theorem X22_generateContent_merges_the_stream (k : nat) (sc closed : StreamClient)
    (msgs : list pbResponse) (chunks : list Response) (merged : option Response) :
  delivers sc msgs closed →
  Forall2 (λ msg chunk, protoToResponse msg = Ret (inl chunk)) msgs chunks →
  (∀ first, head chunks = Some first → NoDup (indices (Candidates first))) →
  joinChunks None chunks = Ret merged →
  generateContent (S (length msgs) + k) sc None = Some (Ret (merged, None)).
Proof.
  intros Hdel Hdec _ Hjoin. by eapply generateContent_joinChunks.
Qed.

End IteratorFurther.

(** ** Parts on the wire *)

Section PartsOnTheWireProperties.

Variable pb_Part_rest : Type.
Variable pb_Part_rest_zero : pb_Part_rest.
Variable Blob_toProto : string → list byte → option pb_Blob.
Variable FileData_toProto : string → string → option pb_FileData.

(** The generated [toProto] of a blob and of a file reference copy the two
fields into a new message. *)
Hypothesis Blob_toProto_fields : ∀ mime data,
  Blob_toProto mime data
  = Some {| pb_Blob_MimeType := mime; pb_Blob_Data := data |}.
Hypothesis FileData_toProto_fields : ∀ mime uri,
  FileData_toProto mime uri
  = Some {| pb_FileData_MimeType := mime; pb_FileData_FileUri := uri |}.

Notation encode := (partToProto pb_Part_rest_zero Blob_toProto FileData_toProto).

(** X23: decoding an encoded part gives the part back, so [partToProto]
loses nothing that [partFromProto] reads and never builds a wire part on
which it panics; an image built by [ImageData] comes back as a blob whose
type is the format after the prefix image/. *)
Theorem X23_part_round_trip :
  (∀ p : Part, partFromProto (encode (Some p)) = Ret p)
  ∧ (∀ p q : Part, encode (Some p) = encode (Some q) → p = q)
  ∧ (∀ format data,
       partFromProto (encode (Some (ImageData format data)))
       = Ret (Blob ("image/" +:+ format) data)).
Proof.
  assert (∀ p : Part, partFromProto (encode (Some p)) = Ret p) as Hround.
  { intros [t|mime data|mime uri]; simpl.
    - done.
    - by rewrite Blob_toProto_fields.
    - by rewrite FileData_toProto_fields. }
  split_and!.
  - exact Hround.
  - intros p q Heq.
    assert (Ret p = Ret q) as [= ->]; [|done].
    by rewrite <- (Hround p), <- (Hround q), Heq.
  - intros format data. apply Hround.
Qed.

(** X24: [partFromProto] returns a part exactly for the wire parts whose
[Data] is the one that [partToProto] builds for some part, and panics on
every other one: a nil part, nil data, a nil wrapper, a wrapper without its
message, data of another kind.  [partToProto] maps the nil part to nil. *)
Theorem X24_partFromProto_panics :
  (∀ w : pb_Part pb_Part_rest,
     partFromProto (Some w) = Panic
     ↔ ¬ ∃ p : Part,
           pb_Part_Data w
           = pb_Part_Data
               (toPart pb_Part_rest_zero Blob_toProto FileData_toProto p))
  ∧ partFromProto (@None (pb_Part pb_Part_rest)) = Panic
  ∧ encode None = None.
Proof.
  split_and!; [|done|done].
  intros [data other]. simpl. split.
  - intros Hpanic [p Hp]. rewrite Hp in Hpanic.
    destruct p as [t|mime d|mime uri]; simpl in Hpanic.
    + done.
    + by rewrite Blob_toProto_fields in Hpanic.
    + by rewrite FileData_toProto_fields in Hpanic.
  - intros Hnot.
    destruct data as [[[t|]|[[[mime d]|]|]|[[[mime uri]|]|]|]|]; try done.
    + destruct Hnot. by exists (Text t).
    + destruct Hnot. exists (Blob mime d). simpl.
      by rewrite Blob_toProto_fields.
    + destruct Hnot. exists (FileData mime uri). simpl.
      by rewrite FileData_toProto_fields.
Qed.

End PartsOnTheWireProperties.

(** ** Dates *)

Lemma int32_is_int32 (x : Z) : is_int32 (int32 x).
Proof.
  unfold is_int32, int32.
  pose proof (Z.mod_pos_bound (x + 2 ^ 31) (2 ^ 32)). lia.
Qed.

Lemma int32_fixed (x : Z) : int32 x = x ↔ is_int32 x.
Proof.
  split.
  - intros <-. apply int32_is_int32.
  - unfold is_int32, int32. intros H. rewrite Z.mod_small; lia.
Qed.

(** X25: a date survives the way to the wire and back exactly when its
year, month and day are [int32] values. *)
Theorem X25_civil_date_round_trip (d : civil_Date) :
  civilDateFromProto (Some (civilDateToProto d)) = d
  ↔ is_int32 (civil_Year d) ∧ is_int32 (civil_Month d) ∧ is_int32 (civil_Day d).
Proof.
  destruct d as [y m dy]. simpl. rewrite <- !int32_fixed. split.
  - by intros [= -> -> ->].
  - by intros (-> & -> & ->).
Qed.

(** X26: [civilDateToProto] always yields [int32] fields, it undoes
[civilDateFromProto] on every wire date, and the nil wire date is read as
the zero date, which is written as the wire date of zeros. *)
Theorem X26_wire_date_round_trip :
  (∀ d : civil_Date,
     is_int32 (date_Year (civilDateToProto d))
     ∧ is_int32 (date_Month (civilDateToProto d))
     ∧ is_int32 (date_Day (civilDateToProto d)))
  ∧ (∀ p : date_Date,
       is_int32 (date_Year p) → is_int32 (date_Month p) → is_int32 (date_Day p) →
       civilDateToProto (civilDateFromProto (Some p)) = p)
  ∧ civilDateToProto (civilDateFromProto None)
    = {| date_Year := 0; date_Month := 0; date_Day := 0 |}.
Proof.
  split_and!.
  - intros d. split_and!; apply int32_is_int32.
  - intros [y m dy]; simpl. intros Hy Hm Hd.
    unfold civilDateToProto. simpl.
    by rewrite (proj2 (int32_fixed y) Hy), (proj2 (int32_fixed m) Hm),
               (proj2 (int32_fixed dy) Hd).
  - reflexivity.
Qed.

(** ** The message of a blocked error *)

Section BlockedErrorMessageProperties.

Context {Citation SafetyRating PromptFeedback : Type}.
Context {pb_PromptFeedback pb_Candidate OtherError : Type}.
Context {StreamClient ChatSession : Type}.
Context {collab : Collaborators Citation SafetyRating PromptFeedback
                    pb_PromptFeedback pb_Candidate OtherError
                    StreamClient ChatSession}.

Variable FinishReason_String : FinishReason → string.
Variable BlockReason_text : PromptFeedback → string.
Variable BlockReasonMessage : PromptFeedback → string.

(** X27: the message of a blocked error that [protoToResponse] returns is
either the one of a blocked prompt, with the block reason and its message,
or the one of a blocked candidate, with the text of the safety finish
reason: it names one cause, without the separator of the two. *)
Theorem X27_blocked_error_message
    (resp : pb_GenerateContentResponse pb_PromptFeedback pb_Candidate)
    (b : BlockedError Citation SafetyRating PromptFeedback) :
  protoToResponse resp = Ret (inr b) →
  (∃ pf, PromptFeedback_fromProto (pb_PromptFeedback_ resp) = Some pf
         ∧ BlockedError_Error FinishReason_String BlockReason_text
             BlockReasonMessage b
           = "blocked: prompt: " +:+ BlockReason_text pf
             +:+ " (" +:+ BlockReasonMessage pf +:+ ")")
  ∨ (PromptFeedback_fromProto (pb_PromptFeedback_ resp) = None
     ∧ BlockedError_Error FinishReason_String BlockReason_text
         BlockReasonMessage b
       = "blocked: candidate: " +:+ FinishReason_String FinishReasonSafety).
Proof.
  unfold protoToResponse.
  destruct (PromptFeedback_fromProto _) as [pf|].
  - intros [= <-]. left. by exists pf.
  - destruct (mapSlice _ _) as [cands|]; simpl; [|done].
    destruct (firstBlocked cands) as [c|] eqn:Hfirst; [|done].
    intros [= <-]. right. split; [done|].
    apply firstBlocked_Some_inv in Hfirst as [_ Hc].
    unfold BlockedError_Error. simpl. by rewrite Hc.
Qed.

(** The four shapes of the message. *)
Lemma BlockedError_Error_shapes
    (c : option (Candidate Citation SafetyRating)) (pf : option PromptFeedback) :
  BlockedError_Error FinishReason_String BlockReason_text BlockReasonMessage
    {| BlockedError_Candidate := c; BlockedError_PromptFeedback := pf |}
  = match c, pf with
    | None, None => "blocked: "
    | Some c, None =>
        "blocked: candidate: " +:+ FinishReason_String (Candidate_FinishReason c)
    | None, Some pf =>
        "blocked: prompt: " +:+ BlockReason_text pf
        +:+ " (" +:+ BlockReasonMessage pf +:+ ")"
    | Some c, Some pf =>
        ("blocked: candidate: " +:+ FinishReason_String (Candidate_FinishReason c))
        +:+ ", prompt: " +:+ BlockReason_text pf
        +:+ " (" +:+ BlockReasonMessage pf +:+ ")"
    end.
Proof.
  destruct c as [c|], pf as [pf|]; unfold BlockedError_Error; simpl; try done.
  by rewrite !string_app_assoc.
Qed.

End BlockedErrorMessageProperties.

(** ** The merge on shared objects *)

Section PointerLists.

Context {A B : Type} (f : A → option B).

Lemma elem_of_omap_cons (x : A) (xs : list A) (l : B) :
  l ∈ omap f (x :: xs) ↔ f x = Some l ∨ l ∈ omap f xs.
Proof.
  rewrite !list_elem_of_omap. split.
  - intros (y & [->|Hy]%elem_of_cons & Hf); [by left | right; eauto].
  - intros [Hf|(y & Hy & Hf)].
    + exists x. split; [by left | done].
    + exists y. split; [by right | done].
Qed.

Lemma NoDup_omap_cons (x : A) (xs : list A) :
  NoDup (omap f (x :: xs)) →
  NoDup (omap f xs) ∧ ∀ l, f x = Some l → l ∉ omap f xs.
Proof.
  cbn [omap list_omap]. destruct (f x) as [l|].
  - intros [Hnotin Hnd]%NoDup_cons. split; [done|]. by intros ? [= <-].
  - done.
Qed.

Lemma Forall_omap_cons (P : B → Prop) (x : A) (xs : list A) :
  Forall P (omap f (x :: xs)) →
  Forall P (omap f xs) ∧ ∀ l, f x = Some l → P l.
Proof.
  cbn [omap list_omap]. destruct (f x) as [l|].
  - intros [Hl Hxs]%Forall_cons. split; [done|]. by intros ? [= <-].
  - done.
Qed.

End PointerLists.

Section Pointers.

Variable SafetyRating : Type.
Notation CandidateRef := (CandidateRef SafetyRating).
Implicit Types (d s : CandidateRef) (ds ss : list CandidateRef)
  (m : gmap Z CandidateRef) (l : nat).

Variable f : CandidateRef → option nat.

Lemma NoDup_omap_inj ss s1 s2 l :
  NoDup (omap f ss) → s1 ∈ ss → s2 ∈ ss →
  f s1 = Some l → f s2 = Some l → s1 = s2.
Proof.
  induction ss as [|s ss IH]; intros Hnd H1 H2 Hf1 Hf2.
  - by apply elem_of_nil in H1.
  - cbn [omap list_omap] in Hnd.
    apply elem_of_cons in H1 as [->|H1]; apply elem_of_cons in H2 as [->|H2].
    + done.
    + rewrite Hf1 in Hnd. apply NoDup_cons in Hnd as [Hnotin _].
      destruct Hnotin. apply list_elem_of_omap. eauto.
    + rewrite Hf2 in Hnd. apply NoDup_cons in Hnd as [Hnotin _].
      destruct Hnotin. apply list_elem_of_omap. eauto.
    + apply IH; try done.
      destruct (f s); [by apply NoDup_cons in Hnd as [_ ?] | done].
Qed.

Variable merge : CandidateRef → CandidateRef.
Variable m : gmap Z CandidateRef.

Hypothesis f_merge : ∀ d,
  f (merge d) = match m !! Ref_Index d with
                | Some s => adopted (f d) (f s)
                | None => f d
                end.

Lemma merged_pointer d l :
  f (merge d) = Some l →
  f d = Some l
  ∨ ∃ s, m !! Ref_Index d = Some s ∧ f s = Some l.
Proof.
  rewrite f_merge.
  destruct (m !! Ref_Index d) as [s|]; [|by left].
  destruct (f d) as [ld|]; simpl; [by left|].
  intros Hs. right. by exists s.
Qed.

Lemma merged_pointers_NoDup ds ss :
  (∀ i s, m !! i = Some s → s ∈ ss ∧ Ref_Index s = i) →
  NoDup (map (@Ref_Index _) ds) →
  NoDup (omap f ds) →
  NoDup (omap f ss) →
  (∀ l, l ∈ omap f ss → l ∉ omap f ds) →
  NoDup (omap f (map merge ds)).
Proof.
  intros Hm. induction ds as [|d ds IH]; intros Hidx Hds Hss Hdisj.
  - constructor.
  - cbn [map] in Hidx. apply NoDup_cons in Hidx as [Hd Hidx].
    assert (NoDup (omap f ds)) as Hds'.
    { cbn [omap list_omap] in Hds.
      destruct (f d); [by apply NoDup_cons in Hds as [_ ?] | done]. }
    assert (∀ l, l ∈ omap f ss → l ∉ omap f ds) as Hdisj'.
    { intros l Hl Hin. apply (Hdisj l Hl).
      cbn [omap list_omap]. destruct (f d); [by right | done]. }
    specialize (IH Hidx Hds' Hss Hdisj').
    cbn [map omap list_omap].
    destruct (f (merge d)) as [l|] eqn:Hl; [|done].
    apply NoDup_cons. split; [|done].
    intros (x & Hx & Hfx)%list_elem_of_omap.
    apply list_elem_of_fmap in Hx as (d2 & -> & Hd2).
    apply merged_pointer in Hl as [Hown|(s & Hs & Hfs)];
      apply merged_pointer in Hfx as [Hown2|(s2 & Hs2 & Hfs2)].
    + cbn [omap list_omap] in Hds. rewrite Hown in Hds.
      apply NoDup_cons in Hds as [Hnotin _]. apply Hnotin.
      apply list_elem_of_omap. eauto.
    + apply Hm in Hs2 as [Hin2 _].
      apply (Hdisj l); [apply list_elem_of_omap; eauto|].
      cbn [omap list_omap]. rewrite Hown. by left.
    + apply Hm in Hs as [Hin _].
      apply (Hdisj l); [apply list_elem_of_omap; eauto|].
      cbn [omap list_omap]. destruct (f d); [right|];
        apply list_elem_of_omap; eauto.
    + apply Hm in Hs as [Hin Hi]. apply Hm in Hs2 as [Hin2 Hi2].
      assert (s = s2) as <- by exact (NoDup_omap_inj Hss Hin Hin2 Hfs Hfs2).
      apply Hd. rewrite <- Hi, Hi2. apply list_elem_of_fmap. eauto.
Qed.

Lemma merged_pointers_valid (n : nat) ds ss :
  (∀ i s, m !! i = Some s → s ∈ ss) →
  Forall (λ l, l < n) (omap f ds) →
  Forall (λ l, l < n) (omap f ss) →
  Forall (λ l, l < n) (omap f (map merge ds)).
Proof.
  intros Hm Hds Hss. apply Forall_forall. intros l (x & Hx & Hfx)%list_elem_of_omap.
  apply list_elem_of_fmap in Hx as (d & -> & Hd).
  apply merged_pointer in Hfx as [Hown|(s & Hs & Hfs)].
  - eapply Forall_forall in Hds; [exact Hds|]. apply list_elem_of_omap; eauto.
  - eapply Forall_forall in Hss; [exact Hss|]. apply list_elem_of_omap; eauto.
Qed.

End Pointers.

Section Objects.

Context {A : Type} `{Inhabited A}.

Lemma new_object_prefix (objects : list A) (v : option A) :
  objects `prefix_of` fst (new_object objects v).
Proof.
  destruct v as [v|]; simpl; [by apply prefix_app_r | done].
Qed.

Lemma new_object_load (objects : list A) (v : option A) :
  (λ l, fst (new_object objects v) !!! l) <$> snd (new_object objects v) = v.
Proof.
  destruct v as [v|]; simpl; [|done].
  f_equal. by apply list_lookup_total_middle.
Qed.

Lemma new_object_pointer (objects : list A) (v : option A) (l : nat) :
  snd (new_object objects v) = Some l →
  length objects ≤ l < length (fst (new_object objects v)).
Proof.
  destruct v as [v|]; simpl; [|done].
  intros [= <-]. rewrite length_app. simpl. lia.
Qed.

Lemma prefix_lookup_total (objects objects' : list A) (l : nat) :
  objects `prefix_of` objects' → l < length objects →
  objects' !!! l = objects !!! l.
Proof. intros [e ->] Hl. by apply lookup_total_app_l. Qed.

End Objects.

Section SharedObjectsProperties.

Variables Citation SafetyRating PromptFeedback : Type.

Notation Heap := (Heap Citation).
Notation CandidateRef := (CandidateRef SafetyRating).
Notation Candidate := (Candidate Citation SafetyRating).
Notation Response := (GenerateContentResponse Citation SafetyRating PromptFeedback).
Notation load := (@load_Candidate Citation SafetyRating).

Implicit Types (h : Heap) (d s : CandidateRef) (ds ss : list CandidateRef)
  (m : gmap Z CandidateRef) (l : nat).

Lemma load_Candidate_ext h h' d :
  (∀ l, Ref_Content d = Some l → Heap_Content h' !!! l = Heap_Content h !!! l) →
  (∀ l, Ref_CitationMetadata d = Some l →
        Heap_CitationMetadata h' !!! l = Heap_CitationMetadata h !!! l) →
  load h' d = load h d.
Proof.
  intros Hc Hm. unfold load_Candidate.
  destruct (Ref_Content d) as [lc|], (Ref_CitationMetadata d) as [lm|]; simpl;
    by rewrite ?(Hc lc), ?(Hm lm).
Qed.

Lemma map_load_ext h h' ds :
  (∀ l, l ∈ content_pointers ds → Heap_Content h' !!! l = Heap_Content h !!! l) →
  (∀ l, l ∈ metadata_pointers ds →
        Heap_CitationMetadata h' !!! l = Heap_CitationMetadata h !!! l) →
  map (load h') ds = map (load h) ds.
Proof.
  intros Hc Hm. apply map_ext_in. intros d Hd%list_elem_of_In.
  apply load_Candidate_ext; intros l Hl.
  - apply Hc. apply list_elem_of_omap. eauto.
  - apply Hm. apply list_elem_of_omap. eauto.
Qed.

Lemma indexToSrcCandidate_heap_load h ss :
  load h <$> indexToSrcCandidate_heap ss = indexToSrcCandidate (map (load h) ss).
Proof.
  unfold indexToSrcCandidate_heap, indexToSrcCandidate.
  rewrite <- (fmap_empty (load h)). generalize (∅ : gmap Z CandidateRef).
  induction ss as [|s ss IH]; intros acc; [done|].
  cbn [foldl map]. by rewrite IH, fmap_insert.
Qed.

Lemma indexToSrcCandidate_heap_elem ss i s :
  indexToSrcCandidate_heap ss !! i = Some s → s ∈ ss ∧ Ref_Index s = i.
Proof.
  unfold indexToSrcCandidate_heap.
  assert (∀ acc : gmap Z CandidateRef,
            foldl (λ m s, <[Ref_Index s := s]> m) acc ss !! i = Some s →
            (s ∈ ss ∧ Ref_Index s = i) ∨ acc !! i = Some s) as Hacc.
  { induction ss as [|s0 ss IH]; intros acc; [by right|].
    cbn [foldl]. intros [[Hin Hi]|Hins]%IH.
    - left. split; [by right | done].
    - apply lookup_insert_Some in Hins as [[<- <-]|[_ Hacc]].
      + left. split; [by left | done].
      + by right. }
  intros [?|Hempty]%Hacc; [done|]. by rewrite lookup_empty in Hempty.
Qed.

Lemma merged_ref_Index m d : Ref_Index (merged_ref m d) = Ref_Index d.
Proof. unfold merged_ref. by destruct (m !! Ref_Index d). Qed.

Lemma merged_ref_Content m d :
  Ref_Content (merged_ref m d)
  = match m !! Ref_Index d with
    | Some s => adopted (Ref_Content d) (Ref_Content s)
    | None => Ref_Content d
    end.
Proof. unfold merged_ref. by destruct (m !! Ref_Index d). Qed.

Lemma merged_ref_CitationMetadata m d :
  Ref_CitationMetadata (merged_ref m d)
  = match m !! Ref_Index d with
    | Some s => adopted (Ref_CitationMetadata d) (Ref_CitationMetadata s)
    | None => Ref_CitationMetadata d
    end.
Proof. unfold merged_ref. by destruct (m !! Ref_Index d). Qed.

(** One assignment block of the second loop: on the heap it writes to the
objects of the destination candidate only, and what the candidate holds
afterwards is what [joinCandidate] returns. *)
Lemma joinCandidate_heap_sim m h d s :
  m !! Ref_Index d = Some s →
  (∀ l, Ref_Content d = Some l → l < length (Heap_Content h)) →
  (∀ l, Ref_CitationMetadata d = Some l → l < length (Heap_CitationMetadata h)) →
  match joinCandidate (load h d) (load h s) with
  | Ret d' =>
      ∃ h1, joinCandidate_heap h d s = Ret (h1, merged_ref m d)
            ∧ load h1 (merged_ref m d) = d'
            ∧ length (Heap_Content h1) = length (Heap_Content h)
            ∧ length (Heap_CitationMetadata h1) = length (Heap_CitationMetadata h)
            ∧ (∀ l, Ref_Content d ≠ Some l →
                    Heap_Content h1 !!! l = Heap_Content h !!! l)
            ∧ (∀ l, Ref_CitationMetadata d ≠ Some l →
                    Heap_CitationMetadata h1 !!! l = Heap_CitationMetadata h !!! l)
  | Panic => joinCandidate_heap h d s = Panic
  end.
Proof.
  intros Hs Hc Hm.
  unfold joinCandidate, joinCandidate_heap, merged_ref. rewrite Hs.
  destruct d as [i [lc|] fr sr [lm|]], s as [j [sc|] sfr ssr [sm|]];
    cbn -[lookup_total insert] in *; try done.
  all: eexists; split; [reflexivity|]; cbn -[lookup_total insert].
  all: repeat split.
  all: try (intros l Hl; apply list_lookup_total_insert_ne; congruence).
  all: try apply length_insert.
  all: unfold load_Candidate; cbn -[lookup_total insert];
    rewrite ?list_lookup_total_insert_eq by eauto; done.
Qed.


(** The second loop of [joinCandidateLists] on a heap in which the
candidates of the destination hold objects of their own, none of them an
object of the source: it writes to the objects of the destination only, and
what the destination holds afterwards is what the loop over values
returns. *)
Lemma joinCandidateLists_loop_heap_sim m ds : ∀ h,
  separate h ds →
  (∀ i s l, m !! i = Some s → Ref_Content s = Some l → l ∉ content_pointers ds) →
  (∀ i s l, m !! i = Some s → Ref_CitationMetadata s = Some l →
            l ∉ metadata_pointers ds) →
  match joinCandidateLists_loop (load h <$> m) (map (load h) ds) with
  | Ret out =>
      ∃ h', joinCandidateLists_loop_heap m h ds = Ret (h', map (merged_ref m) ds)
            ∧ map (load h') (map (merged_ref m) ds) = out
            ∧ length (Heap_Content h') = length (Heap_Content h)
            ∧ length (Heap_CitationMetadata h') = length (Heap_CitationMetadata h)
            ∧ (∀ l, l ∉ content_pointers ds →
                    Heap_Content h' !!! l = Heap_Content h !!! l)
            ∧ (∀ l, l ∉ metadata_pointers ds →
                    Heap_CitationMetadata h' !!! l = Heap_CitationMetadata h !!! l)
  | Panic => joinCandidateLists_loop_heap m h ds = Panic
  end.
Proof.
  induction ds as [|d ds IH]; intros h (Hcnd & Hcv & Hmnd & Hmv) Hcsrc Hmsrc.
  - exists h. by repeat split.
  - apply NoDup_omap_cons in Hcnd as [Hcnd Hcd].
    apply NoDup_omap_cons in Hmnd as [Hmnd Hmd].
    apply Forall_omap_cons in Hcv as [Hcv Hcvd].
    apply Forall_omap_cons in Hmv as [Hmv Hmvd].
    assert (∀ i s l, m !! i = Some s → Ref_Content s = Some l →
                     (l ∉ content_pointers ds) ∧ Ref_Content d ≠ Some l) as Hcsrc'.
    { intros i s l Hs Hl. specialize (Hcsrc i s l Hs Hl).
      unfold content_pointers in Hcsrc. rewrite elem_of_omap_cons in Hcsrc.
      split; intros ?; apply Hcsrc; eauto. }
    assert (∀ i s l, m !! i = Some s → Ref_CitationMetadata s = Some l →
                     (l ∉ metadata_pointers ds)
                     ∧ Ref_CitationMetadata d ≠ Some l) as Hmsrc'.
    { intros i s l Hs Hl. specialize (Hmsrc i s l Hs Hl).
      unfold metadata_pointers in Hmsrc. rewrite elem_of_omap_cons in Hmsrc.
      split; intros ?; apply Hmsrc; eauto. }
    (* what the step for [d] must give for the rest of the loop *)
    assert (∀ h1 (v : Candidate),
      length (Heap_Content h1) = length (Heap_Content h) →
      length (Heap_CitationMetadata h1) = length (Heap_CitationMetadata h) →
      (∀ l, Ref_Content d ≠ Some l →
            Heap_Content h1 !!! l = Heap_Content h !!! l) →
      (∀ l, Ref_CitationMetadata d ≠ Some l →
            Heap_CitationMetadata h1 !!! l = Heap_CitationMetadata h !!! l) →
      load h1 (merged_ref m d) = v →
      match (do rest <- joinCandidateLists_loop (load h <$> m) (map (load h) ds);
             Ret (v :: rest)) with
      | Ret out =>
          ∃ h', (do rest <- joinCandidateLists_loop_heap m h1 ds;
                 Ret (fst rest, merged_ref m d :: snd rest))
                = Ret (h', map (merged_ref m) (d :: ds))
                ∧ map (load h') (map (merged_ref m) (d :: ds)) = out
                ∧ length (Heap_Content h') = length (Heap_Content h)
                ∧ length (Heap_CitationMetadata h')
                  = length (Heap_CitationMetadata h)
                ∧ (∀ l, l ∉ content_pointers (d :: ds) →
                        Heap_Content h' !!! l = Heap_Content h !!! l)
                ∧ (∀ l, l ∉ metadata_pointers (d :: ds) →
                        Heap_CitationMetadata h' !!! l
                        = Heap_CitationMetadata h !!! l)
      | Panic => (do rest <- joinCandidateLists_loop_heap m h1 ds;
                  Ret (fst rest, merged_ref m d :: snd rest)) = Panic
      end) as Hrest.
    { intros h1 v Hlc Hlm Hfc Hfm Hd'.
      assert (map (load h1) ds = map (load h) ds) as Hds.
      { apply map_load_ext; intros l Hl.
        - apply Hfc. intros Hd. by apply (Hcd l).
        - apply Hfm. intros Hd. by apply (Hmd l). }
      assert (load h1 <$> m = load h <$> m) as Hm.
      { apply map_fmap_ext. intros i s Hs.
        apply load_Candidate_ext; intros l Hl.
        - apply Hfc. by apply (Hcsrc' i s l).
        - apply Hfm. by apply (Hmsrc' i s l). }
      assert (separate h1 ds) as Hsep.
      { unfold separate. rewrite Hlc, Hlm. done. }
      specialize (IH h1 Hsep (λ i s l Hs Hl, proj1 (Hcsrc' i s l Hs Hl))
                    (λ i s l Hs Hl, proj1 (Hmsrc' i s l Hs Hl))).
      rewrite Hds, Hm in IH.
      destruct (joinCandidateLists_loop (load h <$> m) (map (load h) ds))
        as [rest|]; cbn [exec_bind].
      - destruct IH as (h' & Hloop & Hload & Hlc' & Hlm' & Hfc' & Hfm').
        exists h'. rewrite Hloop. cbn [exec_bind fst snd map].
        split; [done|]. split.
        { f_equal; [|done]. rewrite <- Hd'.
          apply load_Candidate_ext; intros l Hl.
          - apply Hfc'. rewrite merged_ref_Content in Hl.
            destruct (m !! Ref_Index d) as [s|] eqn:Hs; [|by apply Hcd].
            destruct (Ref_Content d) as [ld|] eqn:Hld; simpl in Hl.
            + apply Hcd. congruence.
            + by apply (Hcsrc' _ s l Hs).
          - apply Hfm'. rewrite merged_ref_CitationMetadata in Hl.
            destruct (m !! Ref_Index d) as [s|] eqn:Hs; [|by apply Hmd].
            destruct (Ref_CitationMetadata d) as [ld|] eqn:Hld; simpl in Hl.
            + apply Hmd. congruence.
            + by apply (Hmsrc' _ s l Hs). }
        split; [congruence|]. split; [congruence|]. split.
        + intros l Hl. unfold content_pointers in Hl.
          rewrite elem_of_omap_cons in Hl.
          rewrite Hfc' by (intros ?; apply Hl; by right).
          apply Hfc. intros ?. apply Hl. by left.
        + intros l Hl. unfold metadata_pointers in Hl.
          rewrite elem_of_omap_cons in Hl.
          rewrite Hfm' by (intros ?; apply Hl; by right).
          apply Hfm. intros ?. apply Hl. by left.
      - by rewrite IH. }
    cbn [map joinCandidateLists_loop joinCandidateLists_loop_heap].
    rewrite lookup_fmap. cbn [load_Candidate Candidate_Index].
    destruct (m !! Ref_Index d) as [s|] eqn:Hs; cbn [fmap option_fmap option_map].
    + pose proof (joinCandidate_heap_sim m h d Hs Hcvd Hmvd) as Hstep.
      destruct (joinCandidate (load h d) (load h s)) as [d'|]; cbn [exec_bind].
      * destruct Hstep as (h1 & -> & Hd' & Hlc & Hlm & Hfc & Hfm).
        cbn [exec_bind fst snd]. by apply Hrest.
      * by rewrite Hstep.
    + cbn [exec_bind fst snd].
      assert (merged_ref m d = d) as Hd by (unfold merged_ref; by rewrite Hs).
      specialize (Hrest h (load h d) eq_refl eq_refl
                    (λ _ _, eq_refl) (λ _ _, eq_refl)).
      rewrite Hd in Hrest. by apply Hrest.
Qed.

(** Decoding: the candidates hold what was decoded, in new objects of
their own; the objects that were there stay as they are. *)
Lemma new_Candidates_spec (cands : list Candidate) : ∀ h,
  map (load (fst (new_Candidates h cands))) (snd (new_Candidates h cands)) = cands
  ∧ map (@Ref_Index _) (snd (new_Candidates h cands)) = indices cands
  ∧ Heap_Content h `prefix_of` Heap_Content (fst (new_Candidates h cands))
  ∧ Heap_CitationMetadata h
    `prefix_of` Heap_CitationMetadata (fst (new_Candidates h cands))
  ∧ NoDup (content_pointers (snd (new_Candidates h cands)))
  ∧ Forall (λ l, length (Heap_Content h) ≤ l
                 < length (Heap_Content (fst (new_Candidates h cands))))
      (content_pointers (snd (new_Candidates h cands)))
  ∧ NoDup (metadata_pointers (snd (new_Candidates h cands)))
  ∧ Forall (λ l, length (Heap_CitationMetadata h) ≤ l
                 < length (Heap_CitationMetadata (fst (new_Candidates h cands))))
      (metadata_pointers (snd (new_Candidates h cands))).
Proof.
  induction cands as [|c cands IH]; intros h.
  - cbn. repeat split; try done; constructor.
  - cbn [new_Candidates fst snd].
    destruct (IH (fst (new_Candidate h c)))
      as (Hload & Hidx & Hpc & Hpm & Hcnd & Hcv & Hmnd & Hmv).
    set (h1 := fst (new_Candidate h c)) in *.
    set (p := snd (new_Candidate h c)) in *.
    set (r := new_Candidates h1 cands) in *.
    pose proof (new_object_prefix (Heap_Content h) (Candidate_Content c)) as Hc1.
    pose proof (new_object_prefix (Heap_CitationMetadata h)
                  (Candidate_CitationMetadata c)) as Hm1.
    pose proof (new_object_pointer (Heap_Content h) (Candidate_Content c)) as Hc2.
    pose proof (new_object_pointer (Heap_CitationMetadata h)
                  (Candidate_CitationMetadata c)) as Hm2.
    change (fst (new_object (Heap_Content h) (Candidate_Content c)))
      with (Heap_Content h1) in *.
    change (fst (new_object (Heap_CitationMetadata h)
                   (Candidate_CitationMetadata c)))
      with (Heap_CitationMetadata h1) in *.
    change (snd (new_object (Heap_Content h) (Candidate_Content c)))
      with (Ref_Content p) in *.
    change (snd (new_object (Heap_CitationMetadata h)
                   (Candidate_CitationMetadata c)))
      with (Ref_CitationMetadata p) in *.
    pose proof (prefix_length _ _ Hc1) as Hlc1.
    pose proof (prefix_length _ _ Hm1) as Hlm1.
    pose proof (prefix_length _ _ Hpc) as Hlc.
    pose proof (prefix_length _ _ Hpm) as Hlm.
    split_and!.
    + cbn [map]. f_equal; [|done].
      transitivity (load h1 p).
      * apply load_Candidate_ext; intros l Hl.
        -- apply prefix_lookup_total; [done|]. apply Hc2 in Hl. lia.
        -- apply prefix_lookup_total; [done|]. apply Hm2 in Hl. lia.
      * unfold load_Candidate, h1, p. cbn [new_Candidate fst snd Heap_Content
          Heap_CitationMetadata Ref_Index Ref_Content Ref_FinishReason
          Ref_SafetyRatings Ref_CitationMetadata].
        rewrite !new_object_load. by destruct c.
    + cbn [map indices]. by f_equal.
    + by etransitivity.
    + by etransitivity.
    + unfold content_pointers. cbn [omap list_omap].
      destruct (Ref_Content p) as [l|] eqn:Hl; [|done].
      apply NoDup_cons. split; [|done].
      intros Hin. eapply Forall_forall in Hcv; [|exact Hin].
      specialize (Hc2 l eq_refl). lia.
    + unfold content_pointers. cbn [omap list_omap].
      assert (Forall (λ l, length (Heap_Content h) ≤ l
                           < length (Heap_Content (fst r)))
                (omap (@Ref_Content _) (snd r))) as Hrest.
      { eapply Forall_impl; [exact Hcv|]. intros l Hl. cbv beta in Hl. lia. }
      destruct (Ref_Content p) as [l|] eqn:Hl; [|done].
      constructor; [|done]. specialize (Hc2 l eq_refl). lia.
    + unfold metadata_pointers. cbn [omap list_omap].
      destruct (Ref_CitationMetadata p) as [l|] eqn:Hl; [|done].
      apply NoDup_cons. split; [|done].
      intros Hin. eapply Forall_forall in Hmv; [|exact Hin].
      specialize (Hm2 l eq_refl). lia.
    + unfold metadata_pointers. cbn [omap list_omap].
      assert (Forall (λ l, length (Heap_CitationMetadata h) ≤ l
                           < length (Heap_CitationMetadata (fst r)))
                (omap (@Ref_CitationMetadata _) (snd r))) as Hrest.
      { eapply Forall_impl; [exact Hmv|]. intros l Hl. cbv beta in Hl. lia. }
      destruct (Ref_CitationMetadata p) as [l|] eqn:Hl; [|done].
      constructor; [|done]. specialize (Hm2 l eq_refl). lia.
Qed.

(** The chunks of a stream merged on the heap, from an aggregate whose
candidates have pairwise distinct indices and objects of their own: what
the aggregate holds in the end is what the merge of values returns. *)
Lemma joinChunks_heap_sim (chunks : list Response) :
  ∀ h (agg : ResponseRef SafetyRating PromptFeedback),
    NoDup (map (@Ref_Index _) (Ref_Candidates agg)) →
    separate h (Ref_Candidates agg) →
    match joinChunks (Some (load_Response h agg)) chunks with
    | Ret r =>
        ∃ h' agg', joinChunks_heap h (Some agg) chunks = Ret (h', Some agg')
                   ∧ r = Some (load_Response h' agg')
    | Panic => joinChunks_heap h (Some agg) chunks = Panic
    end.
Proof.
  induction chunks as [|chunk chunks IH]; intros h [ds pf] Hidx Hsep.
  - cbn. eauto.
  - cbn [joinChunks joinChunks_heap joinResponses joinResponses_heap
         new_Response fst snd Ref_Candidates Ref_PromptFeedback
         load_Response Candidates GenerateContentResponse_PromptFeedback] in *.
    destruct (new_Candidates_spec (Candidates chunk) h)
      as (Hload & Hsidx & Hpc & Hpm & Hcnd & Hcv & Hmnd & Hmv).
    destruct (new_Candidates h (Candidates chunk)) as [h1 ss].
    cbn [fst snd] in *.
    destruct Hsep as (Hdcnd & Hdcv & Hdmnd & Hdmv).
    pose proof (prefix_length _ _ Hpc) as Hlc.
    pose proof (prefix_length _ _ Hpm) as Hlm.
    assert (map (load h) ds = map (load h1) ds) as ->.
    { symmetry. apply map_load_ext; intros l Hl; apply prefix_lookup_total;
        try done.
      - by eapply Forall_forall in Hdcv.
      - by eapply Forall_forall in Hdmv. }
    unfold joinCandidateLists, joinCandidateLists_heap.
    rewrite <- Hload. rewrite <- indexToSrcCandidate_heap_load.
    set (m := indexToSrcCandidate_heap ss).
    assert (separate h1 ds) as Hsep1.
    { split_and!; try done.
      - eapply Forall_impl; [exact Hdcv|]. intros l Hl. cbv beta in Hl. lia.
      - eapply Forall_impl; [exact Hdmv|]. intros l Hl. cbv beta in Hl. lia. }
    assert (∀ l, l ∈ content_pointers ss → l ∉ content_pointers ds) as Hcdisj.
    { intros l Hs Hd.
      eapply Forall_forall in Hcv; [|exact Hs].
      eapply Forall_forall in Hdcv; [|exact Hd]. cbv beta in *. lia. }
    assert (∀ l, l ∈ metadata_pointers ss → l ∉ metadata_pointers ds) as Hmdisj.
    { intros l Hs Hd.
      eapply Forall_forall in Hmv; [|exact Hs].
      eapply Forall_forall in Hdmv; [|exact Hd]. cbv beta in *. lia. }
    assert (∀ i s, m !! i = Some s → s ∈ ss ∧ Ref_Index s = i) as Hm.
    { intros i s. apply indexToSrcCandidate_heap_elem. }
    assert (match joinCandidateLists_loop (load h1 <$> m) (map (load h1) ds) with
            | Ret out =>
                ∃ h', joinCandidateLists_loop_heap m h1 ds
                      = Ret (h', map (merged_ref m) ds)
                      ∧ map (load h') (map (merged_ref m) ds) = out
                      ∧ separate h' (map (merged_ref m) ds)
            | Panic => joinCandidateLists_loop_heap m h1 ds = Panic
            end) as Hloop.
    { pose proof (@joinCandidateLists_loop_heap_sim m ds h1 Hsep1) as Hloop.
      destruct (joinCandidateLists_loop (load h1 <$> m) (map (load h1) ds))
        as [out|].
      - destruct Hloop as (h' & Hrun & Hout & Hlc' & Hlm' & _).
        + intros i s l Hs Hl Hd. apply (Hcdisj l); [|done].
          apply list_elem_of_omap. exists s. split; [by apply (Hm i)|done].
        + intros i s l Hs Hl Hd. apply (Hmdisj l); [|done].
          apply list_elem_of_omap. exists s. split; [by apply (Hm i)|done].
        + exists h'. split; [done|]. split; [done|].
          destruct Hsep1 as (Hc1 & Hc2 & Hm1 & Hm2).
          unfold separate, content_pointers, metadata_pointers.
          rewrite Hlc', Hlm'. split_and!.
          * apply (@merged_pointers_NoDup _ (@Ref_Content _) (merged_ref m) m
                     (merged_ref_Content m) ds ss); try done.
          * apply (@merged_pointers_valid _ (@Ref_Content _) (merged_ref m) m
                     (merged_ref_Content m) _ ds ss); try done.
            -- intros i s Hs. by apply (Hm i).
            -- eapply Forall_impl; [exact Hcv|]. intros l Hl. cbv beta in Hl. lia.
          * apply (@merged_pointers_NoDup _ (@Ref_CitationMetadata _) (merged_ref m) m
                     (merged_ref_CitationMetadata m) ds ss); try done.
          * apply (@merged_pointers_valid _ (@Ref_CitationMetadata _) (merged_ref m) m
                     (merged_ref_CitationMetadata m) _ ds ss); try done.
            -- intros i s Hs. by apply (Hm i).
            -- eapply Forall_impl; [exact Hmv|]. intros l Hl. cbv beta in Hl. lia.
      - apply Hloop.
        + intros i s l Hs Hl Hd. apply (Hcdisj l); [|done].
          apply list_elem_of_omap. exists s. split; [by apply (Hm i)|done].
        + intros i s l Hs Hl Hd. apply (Hmdisj l); [|done].
          apply list_elem_of_omap. exists s. split; [by apply (Hm i)|done]. }
    destruct (joinCandidateLists_loop (load h1 <$> m) (map (load h1) ds))
      as [out|]; cbn [exec_bind].
    + destruct Hloop as (h' & -> & <- & Hsep').
      cbn [exec_bind fst snd].
      apply (IH h' {| Ref_Candidates := map (merged_ref m) ds;
                      Ref_PromptFeedback := pf |}); [|done].
      cbn [Ref_Candidates]. rewrite map_map.
      erewrite map_ext; [exact Hidx|]. intros d. apply merged_ref_Index.
    + by rewrite Hloop.
Qed.

(** X28: the aggregate is built in place, on objects that candidates can
share.  As long as the candidates of the first chunk have pairwise distinct
indices, what it holds after the chunks of a stream is what the merge of
values returns, and building it panics where the merge of values does. *)
Theorem X28_joinChunks_shared_distinct (first : Response) (rest : list Response) :
  NoDup (indices (Candidates first)) →
  joinChunks_shared (first :: rest) = joinChunks None (first :: rest).
Proof.
  intros Hidx. unfold joinChunks_shared.
  cbn [joinChunks_heap joinResponses_heap joinChunks joinResponses exec_bind
       new_Response fst snd].
  set (h0 := {| Heap_Content := []; Heap_CitationMetadata := [] |}).
  destruct (new_Candidates_spec (Candidates first) h0)
    as (Hload & Hsidx & _ & _ & Hcnd & Hcv & Hmnd & Hmv).
  destruct (new_Candidates h0 (Candidates first)) as [h1 ps].
  cbn [fst snd] in *.
  pose proof (@joinChunks_heap_sim rest h1
                {| Ref_Candidates := ps;
                   Ref_PromptFeedback :=
                     GenerateContentResponse_PromptFeedback first |}) as Hsim.
  assert (load_Response h1
            {| Ref_Candidates := ps;
               Ref_PromptFeedback :=
                 GenerateContentResponse_PromptFeedback first |} = first) as Hfirst.
  { unfold load_Response. cbn [Ref_Candidates Ref_PromptFeedback].
    rewrite Hload. by destruct first. }
  rewrite Hfirst in Hsim. cbn [Ref_Candidates] in Hsim.
  destruct (joinChunks (Some first) rest) as [r|].
  - destruct Hsim as (h' & agg' & -> & ->); [by rewrite Hsidx| |done].
    split_and!; try done.
    + eapply Forall_impl; [exact Hcv|]. intros l Hl. cbv beta in Hl. lia.
    + eapply Forall_impl; [exact Hmv|]. intros l Hl. cbv beta in Hl. lia.
  - rewrite Hsim; [done | by rewrite Hsidx |].
    split_and!; try done.
    + eapply Forall_impl; [exact Hcv|]. intros l Hl. cbv beta in Hl. lia.
    + eapply Forall_impl; [exact Hmv|]. intros l Hl. cbv beta in Hl. lia.
Qed.

End SharedObjectsProperties.

Section SharedObjectsWritten.

Variables Citation SafetyRating PromptFeedback : Type.

Notation chunk := (@chunk_of Citation SafetyRating PromptFeedback).
Notation bare := (@bare_candidate Citation SafetyRating).
Notation cited := (@cited_candidate Citation SafetyRating).

(** X29: two candidates of the first chunk that have the same index and
neither content nor citation metadata take over the objects of the same
source candidate, and every later chunk for that index then extends these
objects once for each of the two: both end with the text and the citations
of the later chunk twice, where the merge of values has them once. *)
Theorem X29_shared_objects_extended_twice (i : Z) (a b : string)
    (r1 r2 : FinishReason) (sr1 sr2 : list SafetyRating)
    (cs1 cs2 : list Citation) :
  joinChunks_shared
    [chunk [bare i; bare i]; chunk [cited i a r1 sr1 cs1];
     chunk [cited i b r2 sr2 cs2]]
  = Ret (Some (chunk [cited i (a +:+ b +:+ b) r2 sr2 (cs1 ++ cs2 ++ cs2);
                      cited i (a +:+ b +:+ b) r2 sr2 (cs1 ++ cs2 ++ cs2)]))
  ∧ joinChunks None
      [chunk [bare i; bare i]; chunk [cited i a r1 sr1 cs1];
       chunk [cited i b r2 sr2 cs2]]
    = Ret (Some (chunk [cited i (a +:+ b) r2 sr2 (cs1 ++ cs2);
                        cited i (a +:+ b) r2 sr2 (cs1 ++ cs2)])).
Proof.
  split.
  - unfold joinChunks_shared.
    cbn -[lookup_total insert lookup].
    unfold joinCandidateLists_heap, indexToSrcCandidate_heap.
    cbn -[lookup_total insert lookup].
    rewrite !lookup_insert_eq.
    cbn -[lookup_total insert lookup].
    rewrite !lookup_insert_eq.
    cbn. unfold chunk_of, cited_candidate.
    change ("" +:+ b) with b.
    by rewrite string_app_assoc, <- !app_assoc.
  - cbn -[lookup_total insert lookup].
    unfold joinCandidateLists, indexToSrcCandidate.
    cbn -[lookup_total insert lookup].
    rewrite !lookup_insert_eq.
    cbn -[lookup_total insert lookup].
    rewrite !lookup_insert_eq.
    cbn. unfold chunk_of, cited_candidate.
    by change ("" +:+ b) with b.
Qed.

End SharedObjectsWritten.

(** ** The further properties on concrete inputs *)

Lemma X7_witness :
  joinCandidateLists [text 0 "a"; text 1 "b"] [text 0 "x"]
  = Ret [text 0 "ax"; text 1 "b"]
  ∧ [text 0 "a"; text 1 "b"] !! 1 = Some (text 1 "b")
  ∧ (Candidate_Index (text 1 "b") ∉ indices [text 0 "x"])
  ∧ length [text 0 "ax"; text 1 "b"] = length [text 0 "a"; text 1 "b"]
  ∧ indices [text 0 "ax"; text 1 "b"] = indices [text 0 "a"; text 1 "b"]
  ∧ [text 0 "ax"; text 1 "b"] !! 1 = Some (text 1 "b").
Proof.
  assert (joinCandidateLists [text 0 "a"; text 1 "b"] [text 0 "x"]
          = Ret [text 0 "ax"; text 1 "b"]) as Hout by reflexivity.
  assert (Candidate_Index (text 1 "b") ∉ indices [text 0 "x"]) as Hnotin.
  { apply (bool_decide_unpack _). by vm_compute. }
  destruct (X7_joinCandidateLists_frame _ _ Hout) as (Hlen & Hidx & Hframe).
  split_and!; [exact Hout | reflexivity | exact Hnotin | exact Hlen | exact Hidx |].
  exact (Hframe 1 (text 1 "b") eq_refl Hnotin).
Defined.

Lemma X8_witness :
  joinCandidateLists
    [cited 0 "a" FinishReasonUnspecified ["low"] ["c1"]]
    [cited 0 "x" FinishReasonStop ["medium"] ["c2"];
     cited 0 "y" FinishReasonMaxTokens ["high"; "low"] ["c3"; "c4"]]
  = Ret [cited 0 "ay" FinishReasonMaxTokens ["high"; "low"] ["c1"; "c3"; "c4"]]
  ∧ [cited 0 "a" FinishReasonUnspecified ["low"] ["c1"]] !! 0
    = Some (cited 0 "a" FinishReasonUnspecified ["low"] ["c1"])
  ∧ last (filter (λ s, Candidate_Index s
                        = Candidate_Index
                            (cited 0 "a" FinishReasonUnspecified ["low"] ["c1"]))
            [cited 0 "x" FinishReasonStop ["medium"] ["c2"];
             cited 0 "y" FinishReasonMaxTokens ["high"; "low"] ["c3"; "c4"]])
    = Some (cited 0 "y" FinishReasonMaxTokens ["high"; "low"] ["c3"; "c4"])
  ∧ NoDup (indices [cited 0 "a" FinishReasonUnspecified ["low"] ["c1"]])
  ∧ ∃ d', [cited 0 "ay" FinishReasonMaxTokens ["high"; "low"] ["c1"; "c3"; "c4"]]
          !! 0 = Some d'
          ∧ Candidate_FinishReason d' = FinishReasonMaxTokens
          ∧ Candidate_SafetyRatings d' = ["high"; "low"]
          ∧ citations_of (Candidate_CitationMetadata d') = ["c1"] ++ ["c3"; "c4"].
Proof.
  assert (joinCandidateLists
            [cited 0 "a" FinishReasonUnspecified ["low"] ["c1"]]
            [cited 0 "x" FinishReasonStop ["medium"] ["c2"];
             cited 0 "y" FinishReasonMaxTokens ["high"; "low"] ["c3"; "c4"]]
          = Ret [cited 0 "ay" FinishReasonMaxTokens ["high"; "low"]
                   ["c1"; "c3"; "c4"]]) as Hout by reflexivity.
  assert (last (filter (λ s, Candidate_Index s
                             = Candidate_Index
                                 (cited 0 "a" FinishReasonUnspecified ["low"] ["c1"]))
                  [cited 0 "x" FinishReasonStop ["medium"] ["c2"];
                   cited 0 "y" FinishReasonMaxTokens ["high"; "low"] ["c3"; "c4"]])
          = Some (cited 0 "y" FinishReasonMaxTokens ["high"; "low"] ["c3"; "c4"]))
    as Hs by reflexivity.
  assert (NoDup (indices [cited 0 "a" FinishReasonUnspecified ["low"] ["c1"]]))
    as Hdistinct.
  { apply NoDup_singleton. }
  split_and!; [exact Hout | reflexivity | exact Hs | exact Hdistinct |].
  destruct (X8_joinCandidateLists_last_wins _ _ 0 Hout eq_refl Hs)
    as (d' & Hd' & Hfr & Hsr & Hcites).
  exists d'. split; [exact Hd'|]. split; [exact Hfr|]. split; [exact Hsr|].
  exact (Hcites Hdistinct).
Defined.

Lemma X10_witness :
  joinChunks None
    [chunk [text 0 "The sky"]; chunk [text 0 " is"]; chunk [text 1 "?"];
     chunk [text 0 " blue."]]
  = Ret (Some (chunk [text 0 "The sky is blue."]))
  ∧ Candidates (chunk [text 0 "The sky"]) !! 0 = Some (text 0 "The sky")
  ∧ Candidate_Content (text 0 "The sky")
    = Some {| Content_Role := "model"; Content_Parts := [Text "The sky"] |}
  ∧ ∃ d', Candidates (chunk [text 0 "The sky is blue."]) !! 0 = Some d'
          ∧ Candidate_Index d' = Candidate_Index (text 0 "The sky")
          ∧ Candidate_Content d'
            = Some {| Content_Role := "model";
                      Content_Parts :=
                        match lastSrcCandidate (Candidate_Index (text 0 "The sky"))
                                [chunk [text 0 " is"]; chunk [text 1 "?"];
                                 chunk [text 0 " blue."]] with
                        | Some _ =>
                            collapse_text_runs
                              ([Text "The sky"]
                               ++ concat
                                    (map (parts_from (Candidate_Index (text 0 "The sky")))
                                       [chunk [text 0 " is"]; chunk [text 1 "?"];
                                        chunk [text 0 " blue."]]))
                        | None => [Text "The sky"]
                        end |}.
Proof.
  split_and!; [reflexivity | reflexivity | reflexivity |].
  exact (X10_joinChunks_parts (chunk [text 0 "The sky"])
           [chunk [text 0 " is"]; chunk [text 1 "?"]; chunk [text 0 " blue."]]
           0 eq_refl eq_refl eq_refl).
Defined.

Lemma X11_witness :
  NoDup (indices (Candidates
                    (chunk [bare 0; cited 1 "The sky" FinishReasonUnspecified
                                      [] ["c1"]])))
  ∧ joinChunks None
      [chunk [bare 0; cited 1 "The sky" FinishReasonUnspecified [] ["c1"]];
       chunk [cited 1 " is" FinishReasonUnspecified [] ["c2"; "c3"];
              cited 0 "It" FinishReasonUnspecified [] ["c0"]];
       chunk [cited 1 " blue." FinishReasonStop [] ["c4"]]]
    = Ret (Some (chunk [cited 0 "It" FinishReasonUnspecified [] ["c0"];
                        cited 1 "The sky is blue." FinishReasonStop []
                          ["c1"; "c2"; "c3"; "c4"]]))
  ∧ Candidates
      (chunk [bare 0; cited 1 "The sky" FinishReasonUnspecified [] ["c1"]]) !! 1
    = Some (cited 1 "The sky" FinishReasonUnspecified [] ["c1"])
  ∧ ∃ d', Candidates
            (chunk [cited 0 "It" FinishReasonUnspecified [] ["c0"];
                    cited 1 "The sky is blue." FinishReasonStop []
                      ["c1"; "c2"; "c3"; "c4"]]) !! 1 = Some d'
          ∧ citations_of (Candidate_CitationMetadata d')
            = ["c1"] ++ concat [["c2"; "c3"]; ["c4"]].
Proof.
  assert (NoDup (indices (Candidates
                    (chunk [bare 0; cited 1 "The sky" FinishReasonUnspecified
                                      [] ["c1"]])))) as Hdistinct.
  { apply (bool_decide_unpack _). by vm_compute. }
  split_and!; [exact Hdistinct | reflexivity | reflexivity |].
  exact (X11_joinChunks_citations
           (chunk [bare 0; cited 1 "The sky" FinishReasonUnspecified [] ["c1"]])
           [chunk [cited 1 " is" FinishReasonUnspecified [] ["c2"; "c3"];
                   cited 0 "It" FinishReasonUnspecified [] ["c0"]];
            chunk [cited 1 " blue." FinishReasonStop [] ["c4"]]]
           1 Hdistinct eq_refl eq_refl).
Defined.

Lemma X12_witness :
  joinChunks None
    [chunk [cited 0 "The sky" FinishReasonUnspecified ["low"] []];
     chunk [cited 0 " is" FinishReasonUnspecified ["medium"] []];
     chunk [cited 1 "?" FinishReasonSafety ["high"] []];
     chunk [cited 0 " blue." FinishReasonStop ["low"; "negligible"] []]]
  = Ret (Some (chunk [cited 0 "The sky is blue." FinishReasonStop
                        ["low"; "negligible"] []]))
  ∧ Candidates (chunk [cited 0 "The sky" FinishReasonUnspecified ["low"] []]) !! 0
    = Some (cited 0 "The sky" FinishReasonUnspecified ["low"] [])
  ∧ ∃ d', Candidates
            (chunk [cited 0 "The sky is blue." FinishReasonStop
                      ["low"; "negligible"] []]) !! 0 = Some d'
          ∧ Candidate_FinishReason d' = FinishReasonStop
          ∧ Candidate_SafetyRatings d' = ["low"; "negligible"].
Proof.
  split_and!; [reflexivity | reflexivity |].
  exact (X12_joinChunks_last_wins
           (chunk [cited 0 "The sky" FinishReasonUnspecified ["low"] []])
           [chunk [cited 0 " is" FinishReasonUnspecified ["medium"] []];
            chunk [cited 1 "?" FinishReasonSafety ["high"] []];
            chunk [cited 0 " blue." FinishReasonStop ["low"; "negligible"] []]]
           0 eq_refl eq_refl).
Defined.

Lemma X28_witness :
  NoDup (indices (Candidates
                    (chunk [bare 0; cited 1 "The sky" FinishReasonUnspecified
                                      [] ["c1"]])))
  ∧ joinChunks_shared
      [chunk [bare 0; cited 1 "The sky" FinishReasonUnspecified [] ["c1"]];
       chunk [cited 1 " is" FinishReasonUnspecified [] ["c2"; "c3"];
              cited 0 "It" FinishReasonUnspecified [] ["c0"]];
       chunk [cited 1 " blue." FinishReasonStop [] ["c4"]]]
    = joinChunks None
        [chunk [bare 0; cited 1 "The sky" FinishReasonUnspecified [] ["c1"]];
         chunk [cited 1 " is" FinishReasonUnspecified [] ["c2"; "c3"];
                cited 0 "It" FinishReasonUnspecified [] ["c0"]];
         chunk [cited 1 " blue." FinishReasonStop [] ["c4"]]]
  ∧ joinChunks_shared
      [chunk [bare 0; cited 1 "The sky" FinishReasonUnspecified [] ["c1"]];
       chunk [cited 1 " is" FinishReasonUnspecified [] ["c2"; "c3"];
              cited 0 "It" FinishReasonUnspecified [] ["c0"]];
       chunk [cited 1 " blue." FinishReasonStop [] ["c4"]]]
    = Ret (Some (chunk [cited 0 "It" FinishReasonUnspecified [] ["c0"];
                        cited 1 "The sky is blue." FinishReasonStop []
                          ["c1"; "c2"; "c3"; "c4"]])).
Proof.
  assert (NoDup (indices (Candidates
                    (chunk [bare 0; cited 1 "The sky" FinishReasonUnspecified
                                      [] ["c1"]])))) as Hdistinct.
  { apply (bool_decide_unpack _). by vm_compute. }
  split_and!; [exact Hdistinct | | reflexivity].
  exact (X28_joinChunks_shared_distinct
           (chunk [bare 0; cited 1 "The sky" FinishReasonUnspecified [] ["c1"]])
           [chunk [cited 1 " is" FinishReasonUnspecified [] ["c2"; "c3"];
                   cited 0 "It" FinishReasonUnspecified [] ["c0"]];
            chunk [cited 1 " blue." FinishReasonStop [] ["c4"]]]
           Hdistinct).
Defined.

(** The raw chunks of the examples, and an error of the transport. *)
Local Notation raw cands :=
  ({| pb_Candidates := cands; pb_PromptFeedback_ := @None string |}).
Local Notation unavailable := (error_Other "unavailable").
Local Notation blocked_by c :=
  ({| BlockedError_Candidate := Some c;
      BlockedError_PromptFeedback := @None string |}).
Local Notation drained closing recvs :=
  ({| script_messages :=
        @nil (pb_GenerateContentResponse string (Candidate string string));
      script_closing := (closing : error string string string string);
      script_recvs := recvs |}).
Local Notation no_history := (@nil (list (Candidate string string))).
Local Notation decode_feedback :=
  (@PromptFeedback_fromProto _ _ _ _ _ _ _ _ scripted).

Lemma X13_witness :
  protoToResponse (raw [text 0 "a"; text 1 "b"])
  = Ret (inl (chunk [text 0 "a"; text 1 "b"]))
  ∧ PromptFeedback_fromProto
      (pb_PromptFeedback_ (raw [text 0 "a"; text 1 "b"])) = None
  ∧ mapSlice (pb_Candidates (raw [text 0 "a"; text 1 "b"])) Candidate_fromProto
    = Ret (Candidates (chunk [text 0 "a"; text 1 "b"]))
  ∧ GenerateContentResponse_PromptFeedback (chunk [text 0 "a"; text 1 "b"]) = None
  ∧ Forall (λ c, Candidate_FinishReason c ≠ FinishReasonSafety)
      (Candidates (chunk [text 0 "a"; text 1 "b"])).
Proof.
  split; [reflexivity|].
  exact (X13_protoToResponse_response (collab := scripted)
           (raw [text 0 "a"; text 1 "b"]) eq_refl).
Defined.

Lemma X14_witness :
  protoToResponse (raw [text 0 "a"; blocked (text 1 "b")])
  = Ret (inr (blocked_by (blocked (text 1 "b"))))
  ∧ ((∃ pf, decode_feedback
              (pb_PromptFeedback_ (raw [text 0 "a"; blocked (text 1 "b")]))
            = Some pf
            ∧ (blocked_by (blocked (text 1 "b")))
              = {| BlockedError_Candidate := None;
                   BlockedError_PromptFeedback := Some pf |})
     ∨ (∃ cands c,
          decode_feedback
            (pb_PromptFeedback_ (raw [text 0 "a"; blocked (text 1 "b")]))
          = None
          ∧ mapSlice (pb_Candidates (raw [text 0 "a"; blocked (text 1 "b")]))
              Candidate_fromProto
            = Ret cands
          ∧ c ∈ cands
          ∧ Candidate_FinishReason c = FinishReasonSafety
          ∧ (blocked_by (blocked (text 1 "b")))
            = (blocked_by c))).
Proof.
  split; [reflexivity|].
  exact (X14_protoToResponse_blocked (collab := scripted)
           (raw [text 0 "a"; blocked (text 1 "b")]) eq_refl).
Defined.

Lemma X15_witness :
  iter_err (scripted_iterator [raw [text 0 "a"]] unavailable) = None
  ∧ (∃ iter1 iter2,
       Next (scripted_iterator [raw [text 0 "a"]] unavailable)
       = Ret ((Some (chunk [text 0 "a"]), None), iter1)
       ∧ iter_err iter1 = None
       ∧ Next iter1 = Ret ((None, Some unavailable), iter2)
       ∧ unavailable ≠ @iterator_Done string string string string
       ∧ iter_err iter2 = Some unavailable
       ∧ iter_merged iter2 = iter_merged iter1
       ∧ Next iter2 = Ret ((None, Some unavailable), iter2)).
Proof.
  split; [reflexivity|].
  eexists _, _. split; [reflexivity|]. split; [reflexivity|].
  split; [reflexivity|]. split; [discriminate|].
  refine (proj2 (X15_Next_failure_memoized (collab := scripted) _ _ _ _));
    [reflexivity | reflexivity | discriminate].
Defined.

Lemma X16_witness :
  (Next (scripted_iterator [raw [text 0 "a"]] io_EOF)
   = Ret ((Some (chunk [text 0 "a"]), None),
          {| iter_sc := drained io_EOF 1;
             iter_err := None;
             iter_merged := Some (chunk [text 0 "a"]);
             iter_cs := None |})
   ∧ @None (error string string string string) ≠ Some iterator_Done
   ∧ iter_cs {| iter_sc := drained io_EOF 1;
                iter_err := @None (error string string string string);
                iter_merged := Some (chunk [text 0 "a"]);
                iter_cs := @None (list (list (Candidate string string))) |}
     = iter_cs (scripted_iterator [raw [text 0 "a"]] io_EOF))
  ∧ (iter_err {| iter_sc := drained io_EOF 1;
                 iter_err := @None (error string string string string);
                 iter_merged := Some (chunk [text 0 "a"]);
                 iter_cs := Some no_history |} = None
     ∧ ∃ iter',
         Next (collab := strict_session)
           {| iter_sc := drained io_EOF 1;
              iter_err := None;
              iter_merged := Some (chunk [text 0 "a"]);
              iter_cs := Some no_history |}
         = Ret ((None, Some iterator_Done), iter')
         ∧ iter_cs iter' = Some [[text 0 "a"]]
         ∧ Next (collab := strict_session) iter'
           = Ret ((None, Some io_EOF), iter'))
  ∧ Next (collab := strict_session)
      {| iter_sc := drained io_EOF 1;
         iter_err := None;
         iter_merged := Some (chunk [bare 0]);
         iter_cs := Some no_history |}
    = Panic.
Proof.
  split; [|split].
  - split; [reflexivity|]. split; [discriminate|].
    exact (proj1 (X16_Next_history_once (collab := scripted)
                    (scripted_iterator [raw [text 0 "a"]] io_EOF))
             (Some (chunk [text 0 "a"])) None _ eq_refl ltac:(discriminate)).
  - split; [reflexivity|].
    exact (proj2 (X16_Next_history_once (collab := strict_session)
                    {| iter_sc := drained io_EOF 1;
                       iter_err := None;
                       iter_merged := Some (chunk [text 0 "a"]);
                       iter_cs := Some no_history |})
             None (drained io_EOF 2) eq_refl eq_refl).
  - exact (proj2 (X16_Next_history_once (collab := strict_session)
                    {| iter_sc := drained io_EOF 1;
                       iter_err := None;
                       iter_merged := Some (chunk [bare 0]);
                       iter_cs := Some no_history |})
             None (drained io_EOF 2) eq_refl eq_refl).
Defined.

Lemma X17_witness :
  (∃ iter',
     Next (scripted_iterator [raw [text 0 "a"]] io_EOF)
     = Ret ((Some (chunk [text 0 "a"]), None), iter'))
  ∧ ((is_Some (Some (chunk [text 0 "a"]))
      ∧ @None (error string string string string) = None)
     ∨ (Some (chunk [text 0 "a"]) = None
        ∧ is_Some (@None (error string string string string)))).
Proof.
  split; [by eexists|].
  refine (X17_Next_response_xor_error (collab := scripted)
            (scripted_iterator [raw [text 0 "a"]] io_EOF) _);
    reflexivity.
Defined.

Lemma X18_witness :
  generateContent 3
    (iter_sc (scripted_iterator [raw [text 0 "a"]; raw [text 0 "b"]] io_EOF)) None
  = Some (Ret (Some (chunk [text 0 "ab"]), None))
  ∧ @None (error string string string string) = None
  ∧ GenerateContentResponse_PromptFeedback (chunk [text 0 "ab"]) = None
  ∧ Forall (λ c, Candidate_FinishReason c ≠ FinishReasonSafety)
      (Candidates (chunk [text 0 "ab"])).
Proof.
  split; [reflexivity|].
  refine (X18_generateContent_response_unblocked (collab := scripted) 3
            (iter_sc (scripted_iterator [raw [text 0 "a"]; raw [text 0 "b"]] io_EOF))
            None _).
  reflexivity.
Defined.

Lemma X19_witness :
  unavailable ≠ @iterator_Done string string string string
  ∧ Next (GenerateContentStream (iter_sc (scripted_iterator [] io_EOF))
            (Some unavailable))
    = Ret ((None, Some unavailable),
           GenerateContentStream (iter_sc (scripted_iterator [] io_EOF))
             (Some unavailable))
  ∧ ∀ fuel : nat,
      generateContent (S fuel) (iter_sc (scripted_iterator [] io_EOF))
        (Some unavailable)
      = Some (Ret (None, Some unavailable)).
Proof.
  split; [discriminate|].
  apply (X19_open_error (collab := scripted)). discriminate.
Defined.

Lemma X20_witness :
  (delivers_until
     (iter_sc (scripted_iterator [raw [text 0 "a"]; raw [text 0 "b"]] unavailable))
     [raw [text 0 "a"]; raw [text 0 "b"]] unavailable
     (drained unavailable 3)
   ∧ unavailable ≠ @io_EOF string string string string
   ∧ unavailable ≠ @iterator_Done string string string string
   ∧ Forall2 (λ msg c, protoToResponse msg = Ret (inl c))
       [raw [text 0 "a"]; raw [text 0 "b"]]
       [chunk [text 0 "a"]; chunk [text 0 "b"]]
   ∧ joinChunks None [chunk [text 0 "a"]; chunk [text 0 "b"]]
     = Ret (Some (chunk [text 0 "ab"])))
  ∧ generateContent
      (S (length [raw [text 0 "a"]; raw [text 0 "b"]]) + 0)
      (iter_sc (scripted_iterator [raw [text 0 "a"]; raw [text 0 "b"]] unavailable))
      None
    = Some (Ret (None, Some unavailable)).
Proof.
  assert (delivers_until
            (iter_sc (scripted_iterator [raw [text 0 "a"]; raw [text 0 "b"]] unavailable))
            [raw [text 0 "a"]; raw [text 0 "b"]] unavailable
            (drained unavailable 3)) as Hdel.
  { eexists. split; [reflexivity|]. eexists. split; [reflexivity|].
    by exists None. }
  assert (Forall2 (λ msg c, protoToResponse msg = Ret (inl c))
            [raw [text 0 "a"]; raw [text 0 "b"]]
            [chunk [text 0 "a"]; chunk [text 0 "b"]]) as Hdec.
  { repeat constructor. }
  split; [split_and!; [exact Hdel | discriminate | discriminate | exact Hdec
                       | reflexivity] |].
  eapply (X20_generateContent_transport_error (collab := scripted) 0);
    [exact Hdel | discriminate | discriminate | exact Hdec | reflexivity].
Defined.

Lemma X21_witness :
  (delivers_then
     (iter_sc (scripted_iterator
                 [raw [text 0 "a"]; raw [blocked (text 0 "b")]] io_EOF))
     [raw [text 0 "a"]] (raw [blocked (text 0 "b")])
     (drained io_EOF 2)
   ∧ Forall2 (λ msg c, protoToResponse msg = Ret (inl c))
       [raw [text 0 "a"]] [chunk [text 0 "a"]]
   ∧ joinChunks None [chunk [text 0 "a"]] = Ret (Some (chunk [text 0 "a"]))
   ∧ protoToResponse (raw [blocked (text 0 "b")])
     = Ret (inr (blocked_by (blocked (text 0 "b")))))
  ∧ generateContent (S (length [raw [text 0 "a"]]) + 0)
      (iter_sc (scripted_iterator
                  [raw [text 0 "a"]; raw [blocked (text 0 "b")]] io_EOF))
      None
    = Some (Ret (None,
                 Some (error_BlockedError
                         (blocked_by (blocked (text 0 "b")))))).
Proof.
  assert (delivers_then
            (iter_sc (scripted_iterator
                        [raw [text 0 "a"]; raw [blocked (text 0 "b")]] io_EOF))
            [raw [text 0 "a"]] (raw [blocked (text 0 "b")])
            (drained io_EOF 2)) as Hdel.
  { eexists. split; reflexivity. }
  assert (Forall2 (λ msg c, protoToResponse msg = Ret (inl c))
            [raw [text 0 "a"]] [chunk [text 0 "a"]]) as Hdec.
  { repeat constructor. }
  split; [split_and!; [exact Hdel | exact Hdec | reflexivity | reflexivity] |].
  eapply (X21_generateContent_blocked (collab := scripted) 0);
    [exact Hdel | exact Hdec | reflexivity | reflexivity].
Defined.

Lemma X22_witness :
  (delivers
     (iter_sc (scripted_iterator
                 [raw [text 0 "a"; bare 1]; raw [text 1 "c"; text 0 "b"]] io_EOF))
     [raw [text 0 "a"; bare 1]; raw [text 1 "c"; text 0 "b"]]
     (drained io_EOF 3)
   ∧ Forall2 (λ msg c, protoToResponse msg = Ret (inl c))
       [raw [text 0 "a"; bare 1]; raw [text 1 "c"; text 0 "b"]]
       [chunk [text 0 "a"; bare 1]; chunk [text 1 "c"; text 0 "b"]]
   ∧ (∀ first,
        head [chunk [text 0 "a"; bare 1]; chunk [text 1 "c"; text 0 "b"]]
        = Some first →
        NoDup (indices (Candidates first)))
   ∧ joinChunks None [chunk [text 0 "a"; bare 1]; chunk [text 1 "c"; text 0 "b"]]
     = Ret (Some (chunk [text 0 "ab"; text 1 "c"])))
  ∧ generateContent
      (S (length [raw [text 0 "a"; bare 1]; raw [text 1 "c"; text 0 "b"]]) + 0)
      (iter_sc (scripted_iterator
                  [raw [text 0 "a"; bare 1]; raw [text 1 "c"; text 0 "b"]] io_EOF))
      None
    = Some (Ret (Some (chunk [text 0 "ab"; text 1 "c"]), None)).
Proof.
  assert (delivers
            (iter_sc (scripted_iterator
                        [raw [text 0 "a"; bare 1]; raw [text 1 "c"; text 0 "b"]]
                        io_EOF))
            [raw [text 0 "a"; bare 1]; raw [text 1 "c"; text 0 "b"]]
            (drained io_EOF 3)) as Hdel.
  { eexists. split; [reflexivity|]. eexists. split; [reflexivity|].
    by exists None. }
  assert (Forall2 (λ msg c, protoToResponse msg = Ret (inl c))
            [raw [text 0 "a"; bare 1]; raw [text 1 "c"; text 0 "b"]]
            [chunk [text 0 "a"; bare 1]; chunk [text 1 "c"; text 0 "b"]]) as Hdec.
  { repeat constructor. }
  assert (∀ first : GenerateContentResponse string string string,
            head [chunk [text 0 "a"; bare 1]; chunk [text 1 "c"; text 0 "b"]]
            = Some first →
            NoDup (indices (Candidates first))) as Hdistinct.
  { intros first [= <-]. apply (bool_decide_unpack _). by vm_compute. }
  split; [split_and!; [exact Hdel | exact Hdec | exact Hdistinct | reflexivity] |].
  eapply (X22_generateContent_merges_the_stream (collab := scripted) 0);
    [exact Hdel | exact Hdec | exact Hdistinct | reflexivity].
Defined.

(** Encoders that copy the two fields, and a wire part with nothing
beside its data. *)
Local Notation copy_blob :=
  (λ mime data, Some {| pb_Blob_MimeType := mime; pb_Blob_Data := data |}).
Local Notation copy_file :=
  (λ mime uri,
     Some {| pb_FileData_MimeType := mime; pb_FileData_FileUri := uri |}).

Lemma X23_witness :
  ((∀ mime data,
      copy_blob mime data
      = Some {| pb_Blob_MimeType := mime; pb_Blob_Data := data |})
   ∧ (∀ mime uri,
        copy_file mime uri
        = Some {| pb_FileData_MimeType := mime; pb_FileData_FileUri := uri |}))
  ∧ partFromProto
      (partToProto tt copy_blob copy_file
         (Some (FileData "image/png" "gs://bucket/sky.png")))
    = Ret (FileData "image/png" "gs://bucket/sky.png").
Proof.
  split; [split; reflexivity|].
  apply (proj1 (X23_part_round_trip tt copy_blob copy_file
                  (λ _ _, eq_refl) (λ _ _, eq_refl))).
Defined.

Lemma X24_witness :
  ((∀ mime data,
      copy_blob mime data
      = Some {| pb_Blob_MimeType := mime; pb_Blob_Data := data |})
   ∧ (∀ mime uri,
        copy_file mime uri
        = Some {| pb_FileData_MimeType := mime; pb_FileData_FileUri := uri |}))
  ∧ (partFromProto
       (Some {| pb_Part_Data := Some (pb_Part_InlineData (Some None));
                pb_Part_Rest := tt |})
     = Panic
     ↔ ¬ ∃ p : Part,
           pb_Part_Data
             {| pb_Part_Data := Some (pb_Part_InlineData (Some None));
                pb_Part_Rest := tt |}
           = pb_Part_Data (toPart tt copy_blob copy_file p)).
Proof.
  split; [split; reflexivity|].
  apply (proj1 (X24_partFromProto_panics tt copy_blob copy_file
                  (λ _ _, eq_refl) (λ _ _, eq_refl))).
Defined.

Lemma X26_witness :
  (is_int32 2023 ∧ is_int32 12 ∧ is_int32 25)
  ∧ civilDateToProto
      (civilDateFromProto
         (Some {| date_Year := 2023; date_Month := 12; date_Day := 25 |}))
    = {| date_Year := 2023; date_Month := 12; date_Day := 25 |}.
Proof.
  assert (is_int32 2023 ∧ is_int32 12 ∧ is_int32 25) as (Hy & Hm & Hd).
  { unfold is_int32. lia. }
  split; [by split_and!|].
  exact (proj1 (proj2 X26_wire_date_round_trip)
           {| date_Year := 2023; date_Month := 12; date_Day := 25 |} Hy Hm Hd).
Defined.

Lemma X27_witness :
  protoToResponse
    {| pb_Candidates := [text 0 "a"]; pb_PromptFeedback_ := Some "SAFETY" |}
  = Ret (inr {| BlockedError_Candidate := None;
                BlockedError_PromptFeedback := Some "SAFETY" |})
  ∧ ((∃ pf,
        decode_feedback
          (pb_PromptFeedback_
             {| pb_Candidates := [text 0 "a"];
                pb_PromptFeedback_ := Some "SAFETY" |})
        = Some pf
        ∧ BlockedError_Error (λ _, "FinishReasonSafety") id (λ _, "unsafe prompt")
            {| BlockedError_Candidate := @None (Candidate string string);
               BlockedError_PromptFeedback := Some "SAFETY" |}
          = "blocked: prompt: " +:+ id pf +:+ " (" +:+ "unsafe prompt" +:+ ")")
     ∨ (decode_feedback
          (pb_PromptFeedback_
             {| pb_Candidates := [text 0 "a"];
                pb_PromptFeedback_ := Some "SAFETY" |})
        = None
        ∧ BlockedError_Error (λ _, "FinishReasonSafety") id (λ _, "unsafe prompt")
            {| BlockedError_Candidate := @None (Candidate string string);
               BlockedError_PromptFeedback := Some "SAFETY" |}
          = "blocked: candidate: " +:+ "FinishReasonSafety")).
Proof.
  split; [reflexivity|].
  exact (X27_blocked_error_message (collab := scripted)
           (λ _, "FinishReasonSafety") id (λ _, "unsafe prompt")
           {| pb_Candidates := [text 0 "a"]; pb_PromptFeedback_ := Some "SAFETY" |}
           eq_refl).
Defined.
